(** * better-recs: the recommendation core, embedded and verified

    A shallow embedding of the aggregation and ranking code of better-recs
    (Spotify playlists in, Last.fm similar artists out):

    - [spotifyService.getPlaylistArtists]          (seed extraction per playlist),
    - [lastfmService.getSimilarArtistsForMultiple] (fan-out and aggregation), in
      its current, weighted form and in its older, unweighted form,
    - [recommendationEngine.getRecommendations] and
      [recommendationEngine.getRecommendationsFromMultiple],
    - the route handler of [POST /recommendations/multiple].

    JavaScript numbers are IEEE 754 doubles.  The code is written once over an
    interface of the arithmetic it uses ([JsNumber]) and read at two instances:
    the kernel's binary64 floats, which is what the program runs on, and the
    rationals [Qc], which is the exact arithmetic its comments reason in.  A
    theorem holds of the program when it is stated for every instance or for
    the doubles; what is stated for the rationals says so, and is there to
    tell rounding from the rest.

    [String.prototype.toLowerCase] is a parameter ([JsString]): the theorems
    hold for every function in its place. *)

From Stdlib Require Import String Ascii List Bool Arith ZArith Lia.
From Stdlib Require Import Permutation Sorted.
From Stdlib Require Import PrimFloat.
From Stdlib Require Import QArith Qround Qcanon.
Import ListNotations.

Close Scope Q_scope.
Close Scope Qc_scope.
Open Scope string_scope.
Open Scope list_scope.
Open Scope nat_scope.

Set Warnings "-inexact-float".

(* ================================================================== *)
(** ** Numbers *)

(** The arithmetic the services use on numbers: [+], [-], [*], [/], the test
    [x > 0] that [Array.prototype.sort] applies to a comparator's result, and
    [Math.round]. *)
Class JsNumber (num : Type) : Type := {
  num_zero : num;
  num_one : num;
  num_add : num -> num -> num;
  num_sub : num -> num -> num;
  num_mul : num -> num -> num;
  num_div : num -> num -> num;
  num_gt0 : num -> bool;
  num_round : num -> num
}.

(** A non-negative integer ([array.length], the literal [100], a frequency)
    as a number; on doubles the iteration is exact below 2^53. *)
Fixpoint num_of_nat {num} `{JsNumber num} (n : nat) : num :=
  match n with
  | O => num_zero
  | S k => num_add (num_of_nat k) num_one
  end.

(** [xs.reduce((a, b) => a + b, 0)] *)
Definition num_sum {num} `{JsNumber num} (xs : list num) : num :=
  fold_left num_add xs num_zero.

Module Float64.

Definition two52 : float := 0x1p+52%float.

(** [Math.round] on a double: NaN, infinities and integers are returned as
    they are; otherwise the largest integer not above [x], plus one when the
    fractional part is at least one half. *)
Definition round (x : float) : float :=
  if PrimFloat.is_nan x then x
  else if PrimFloat.leb two52 (PrimFloat.abs x) then x
  else
    let t := if PrimFloat.leb 0 x
             then PrimFloat.sub (PrimFloat.add x two52) two52
             else PrimFloat.add (PrimFloat.sub x two52) two52 in
    let f := if PrimFloat.ltb x t then PrimFloat.sub t 1 else t in
    let r := if PrimFloat.leb 0.5 (PrimFloat.sub x f)
             then PrimFloat.add f 1 else f in
    if PrimFloat.eqb r 0
    then (if PrimFloat.ltb (PrimFloat.div 1 x) 0 then (-0)%float else r)
    else r.

#[global] Instance number : JsNumber float := {|
  num_zero := 0%float;
  num_one := 1%float;
  num_add := PrimFloat.add;
  num_sub := PrimFloat.sub;
  num_mul := PrimFloat.mul;
  num_div := PrimFloat.div;
  num_gt0 := fun x => PrimFloat.ltb 0 x;
  num_round := round
|}.

(** [Math.abs(x - 1) <= 1e-9] *)
Definition near_one (x : float) : bool :=
  PrimFloat.leb (PrimFloat.abs (PrimFloat.sub x 1)) 1e-9.

End Float64.

(** The rationals.  Nothing rounds here, and a division by zero, which is
    NaN or an infinity on doubles, is 0: no statement below is made at this
    instance about a division whose divisor can be 0. *)
Module Exact.

Definition round (x : Qc) : Qc :=
  Q2Qc (inject_Z (Qfloor (Qplus (this x) (1 # 2)))).

#[global] Instance number : JsNumber Qc := {|
  num_zero := Q2Qc 0;
  num_one := Q2Qc 1;
  num_add := Qcplus;
  num_sub := Qcminus;
  num_mul := Qcmult;
  num_div := Qcdiv;
  num_gt0 := fun x => match Qccompare (Q2Qc 0) x with Lt => true | _ => false end;
  num_round := round
|}.

End Exact.

(* ================================================================== *)
(** ** Strings *)

(** [String.prototype.toLowerCase].  What it does to a string is fixed by the
    Unicode case mappings, which are not written out here: the engine is read
    for every function from strings to strings, and nothing is assumed of
    it. *)
Class JsString : Type := {
  toLowerCase : string -> string
}.

(** The strings of the concrete requests below hold ASCII characters only.
    On those [toLowerCase] maps [A-Z] to [a-z] and leaves every other
    character as it is. *)
Module AsciiStrings.

Definition lowerChar (c : ascii) : ascii :=
  let n := nat_of_ascii c in
  if (65 <=? n) && (n <=? 90) then ascii_of_nat (n + 32) else c.

Fixpoint lower (s : string) : string :=
  match s with
  | EmptyString => EmptyString
  | String c r => String (lowerChar c) (lower r)
  end.

#[global] Instance strings : JsString := {| toLowerCase := lower |}.

End AsciiStrings.

(** [array.includes(s)] on an array of strings *)
Definition includes (xs : list string) (s : string) : bool :=
  existsb (String.eqb s) xs.

(* ================================================================== *)
(** ** Arrays *)

(** [array.slice(0, end)] for an integer [end]: a negative [end] counts from
    the back of the array. *)
Definition slice0 {A} (xs : list A) (e : Z) : list A :=
  let len := Z.of_nat (List.length xs) in
  let k := if (e <? 0)%Z then Z.max (len + e) 0 else Z.min e len in
  firstn (Z.to_nat k) xs.

Section Sorting.
Context {A num : Type} `{JsNumber num}.
Variable compareFn : A -> A -> num.

(** [x] is placed in front of the first element it does not have to follow;
    it follows [y] when [compareFn(x, y) > 0]. *)
Fixpoint sortInsert (x : A) (l : list A) : list A :=
  match l with
  | [] => [x]
  | y :: r => if num_gt0 (compareFn x y) then y :: sortInsert x r else x :: l
  end.

(** [array.sort(compareFn)]: the stable sort (ECMAScript 2019).  Elements
    that compare equal, or whose comparison is NaN, keep their order. *)
Definition sort (l : list A) : list A := fold_right sortInsert [] l.
End Sorting.

(* ================================================================== *)
(** ** Maps *)

(** A JavaScript [Map] with string keys: the entries in insertion order. *)
Module JsMap.
Section Ops.
Context {V : Type}.

Definition t : Type := list (string * V).

Definition empty : t := [].

Fixpoint get (k : string) (m : t) : option V :=
  match m with
  | [] => None
  | (k', v) :: r => if String.eqb k' k then Some v else get k r
  end.

Definition has (k : string) (m : t) : bool :=
  match get k m with Some _ => true | None => false end.

(** [map.set(k, v)]: an existing key keeps its place. *)
Fixpoint set (k : string) (v : V) (m : t) : t :=
  match m with
  | [] => [(k, v)]
  | (k', v') :: r =>
      if String.eqb k' k then (k', v) :: r else (k', v') :: set k v r
  end.

Definition keys (m : t) : list string := List.map fst m.
Definition values (m : t) : list V := List.map snd m.

(** The shape of both accumulation loops: the entry of [k] becomes [f v]
    when there is one, and [init] is added otherwise. *)
Fixpoint upsert (k : string) (f : V -> V) (init : V) (m : t) : t :=
  match m with
  | [] => [(k, init)]
  | (k', v) :: r =>
      if String.eqb k' k then (k', f v) :: r
      else (k', v) :: upsert k f init r
  end.

(** Where a key goes in the list of keys: nowhere when it is there already,
    to the end otherwise. *)
Definition addKey (ks : list string) (k : string) : list string :=
  if existsb (String.eqb k) ks then ks else ks ++ [k].
End Ops.
Arguments t : clear implicits.

(** Folding [upsert] over a list of items [x], each with its key, its update
    [upd x] of an entry that is there and its entry [init x] otherwise. *)
Section Folding.
Context {V X : Type}.
Variable key : X -> string.
Variable upd : X -> V -> V.
Variable init : X -> V.

Definition step (m : t V) (x : X) : t V :=
  upsert (key x) (upd x) (init x) m.

(** What an item does to the entry of [k]. *)
Definition stepAt (k : string) (o : option V) (x : X) : option V :=
  if String.eqb (key x) k
  then Some (match o with Some v => upd x v | None => init x end)
  else o.
End Folding.
End JsMap.

(* ================================================================== *)
(** ** Network effects *)

(** The two requests the services send.  A request to Spotify stands for
    [getPlaylistTracks] as a whole (the token it may fetch first included). *)
Inductive NetCall : Type :=
| SpotifyPlaylistTracks (playlistUrl : string)
| LastfmGetSimilar (artistName : string).

(** The requests sent so far, oldest first. *)
Definition History : Type := list NetCall.

Inductive Outcome (A : Type) : Type :=
| Returned (a : A)
| Thrown (message : string).
Arguments Returned {A} a.
Arguments Thrown {A} message.

(** An [async] function: it extends the history of requests and either
    returns or throws. *)
Definition Async (A : Type) : Type := History -> History * Outcome A.

Definition ret {A} (a : A) : Async A := fun h => (h, Returned a).

Definition throw {A} (message : string) : Async A := fun h => (h, Thrown message).

Definition bind {A B} (c : Async A) (k : A -> Async B) : Async B :=
  fun h =>
    match c h with
    | (h', Returned a) => k a h'
    | (h', Thrown e) => (h', Thrown e)
    end.

Declare Scope async_scope.
Delimit Scope async_scope with async.
Notation "'await' x <- c ;; k" := (bind c (fun x => k))
  (at level 61, c at next level, x name, right associativity) : async_scope.
Open Scope async_scope.

(** [for (const x of xs) { acc = await body(acc, x) }] *)
Fixpoint forOf {A S} (body : S -> A -> Async S) (xs : list A) (acc : S) : Async S :=
  match xs with
  | [] => ret acc
  | x :: r => await acc' <- body acc x ;; forOf body r acc'
  end.

(** [await Promise.all(xs.map(f))]: the requests are issued in the order of
    the array, and the results keep that order. *)
Fixpoint promiseAll {A B} (f : A -> Async B) (xs : list A) : Async (list B) :=
  match xs with
  | [] => ret []
  | x :: r =>
      await y <- f x ;;
      await ys <- promiseAll f r ;;
      ret (y :: ys)
  end.

(** How many similarity lookups a history holds. *)
Definition isLookup (c : NetCall) : bool :=
  match c with LastfmGetSimilar _ => true | SpotifyPlaylistTracks _ => false end.

Definition lookupCount (h : History) : nat := List.length (filter isLookup h).

(** The distinct strings of a list, each at its first occurrence. *)
Fixpoint distinct (xs : list string) : list string :=
  match xs with
  | [] => []
  | x :: r => x :: filter (fun y => negb (String.eqb x y)) (distinct r)
  end.

(* ================================================================== *)
(** ** Data *)

(** [{ id, name }], an artist of a Spotify track. *)
Record Artist : Type := {
  artist_id : string;
  artist_name : string
}.

(** [{ name, artists }], a track of a playlist. *)
Record Track : Type := {
  track_name : string;
  track_artists : list Artist
}.

Section Services.
Context {num : Type} `{JsNumber num}.
Context `{JsString}.

(** [{ name, match, url }], one answer of [artist.getsimilar]. *)
Record SimilarArtist : Type := {
  similar_name : string;
  similar_match : num;
  similar_url : string
}.

(** [{ name, weight }], a seed as the engine hands it to the Last.fm
    service. *)
Record WeightedArtist : Type := {
  wa_name : string;
  wa_weight : num
}.

(** An element of [artistsWithWeights]: a string, or an object. *)
Inductive SeedArg : Type :=
| SeedName (artistName : string)
| SeedWeighted (a : WeightedArtist).

(** [{ frequency, weightedScoreSum, scores }], the accumulator of one
    candidate. *)
Record ArtistData : Type := {
  data_frequency : nat;
  weightedScoreSum : num;
  scores : list num
}.

(** The aggregated candidate the service returns. *)
Record AggregatedArtist : Type := {
  name : string;
  frequency : nat;
  averageMatch : num;
  combinedScore : num
}.

(** [{ url, weight }], a playlist with its weight. *)
Record Playlist : Type := {
  playlist_url : string;
  playlist_weight : num
}.

(** An element of [playlists]: a string, or an object. *)
Inductive PlaylistArg : Type :=
| PlaylistUrl (url : string)
| PlaylistWeighted (p : Playlist).

(** [{ ...artist, weight }], a value of [artistWeightMap]. *)
Record SeedArtist : Type := {
  seed_id : string;
  seed_name : string;
  seed_weight : num
}.

(** [{ limit, minFrequency }]; [None] is [undefined]. *)
Record Options : Type := {
  limit : option Z;
  minFrequency : option Z
}.

(** What [getRecommendations] returns. *)
Record Recommendations : Type := {
  seedArtists : list Artist;
  recommendations : list AggregatedArtist;
  totalFound : nat
}.

(** What [getRecommendationsFromMultiple] returns. *)
Record MultiRecommendations : Type := {
  m_seedArtists : list Artist;
  m_playlistWeights : list Playlist;
  m_recommendations : list AggregatedArtist;
  m_totalFound : nat
}.

(** The remote services.  [None] is a request that fails. *)
Variable spotifyApi : History -> string -> option (list Track).
Variable lastfmApi : History -> string -> option (list SimilarArtist).

(* ---------------------------------------------------------------- *)
(** *** spotifyService.js *)

Definition getPlaylistTracks (playlistUrl : string) : Async (list Track) :=
  fun h =>
    let h' := h ++ [SpotifyPlaylistTracks playlistUrl] in
    match spotifyApi h playlistUrl with
    | Some tracks => ret tracks h'
    | None => throw "Failed to fetch playlist from Spotify" h'
    end.

Definition addArtist (artistMap : JsMap.t Artist) (artist : Artist) : JsMap.t Artist :=
  if negb (JsMap.has (artist_id artist) artistMap)
  then JsMap.set (artist_id artist) artist artistMap
  else artistMap.

Definition uniqueArtistsOf (tracks : list Track) : list Artist :=
  JsMap.values
    (fold_left (fun artistMap track => fold_left addArtist (track_artists track) artistMap)
               tracks JsMap.empty).

Definition getPlaylistArtists (playlistUrl : string) : Async (list Artist) :=
  await tracks <- getPlaylistTracks playlistUrl ;;
  ret (uniqueArtistsOf tracks).

(* ---------------------------------------------------------------- *)
(** *** lastfmService.js *)

(** The [catch] turns a failed request into an empty array. *)
Definition getSimilarArtists (artistName : string) : Async (list SimilarArtist) :=
  fun h =>
    (h ++ [LastfmGetSimilar artistName],
     Returned (match lastfmApi h artistName with Some l => l | None => [] end)).

Definition toWeighted (len : nat) (a : SeedArg) : WeightedArtist :=
  match a with
  | SeedName s => {| wa_name := s; wa_weight := num_div num_one (num_of_nat len) |}
  | SeedWeighted w => w
  end.

(** The body of the inner [forEach]. *)
Definition accumulate (seedWeight : num) (artistData : JsMap.t ArtistData)
           (similar : SimilarArtist) : JsMap.t ArtistData :=
  let nm := similar_name similar in
  let artistData :=
    if negb (JsMap.has nm artistData)
    then JsMap.set nm {| data_frequency := 0; weightedScoreSum := num_zero; scores := [] |}
                   artistData
    else artistData in
  match JsMap.get nm artistData with
  | Some data =>
      JsMap.set nm
        {| data_frequency := data_frequency data + 1;
           weightedScoreSum :=
             num_add (weightedScoreSum data) (num_mul (similar_match similar) seedWeight);
           scores := scores data ++ [similar_match similar] |}
        artistData
  | None => artistData
  end.

(** Both [forEach] loops; [results[index]] is paired with [artists[index]]. *)
Definition accumulateAll (results : list (WeightedArtist * list SimilarArtist))
  : JsMap.t ArtistData :=
  fold_left
    (fun artistData r => fold_left (accumulate (wa_weight (fst r))) (snd r) artistData)
    results JsMap.empty.

Definition average (xs : list num) : num :=
  num_div (num_sum xs) (num_of_nat (List.length xs)).

Definition toAggregated (artistData : JsMap.t ArtistData) (nm : string) : AggregatedArtist :=
  match JsMap.get nm artistData with
  | Some data =>
      {| name := nm;
         frequency := data_frequency data;
         averageMatch := average (scores data);
         combinedScore := weightedScoreSum data |}
  | None =>
      (* not reached: [nm] is a key of [artistData] *)
      {| name := nm; frequency := 0; averageMatch := num_zero; combinedScore := num_zero |}
  end.

(** [(a, b) => b.combinedScore - a.combinedScore] *)
Definition byCombinedScore (a b : AggregatedArtist) : num :=
  num_sub (combinedScore b) (combinedScore a).

(** Everything after [await Promise.all(promises)]. *)
Definition aggregate (results : list (WeightedArtist * list SimilarArtist))
  : list AggregatedArtist :=
  let artistData := accumulateAll results in
  let aggregatedArtists := map (toAggregated artistData) (JsMap.keys artistData) in
  sort byCombinedScore aggregatedArtists.

Definition getSimilarArtistsForMultiple (artistsWithWeights : list SeedArg)
  : Async (list AggregatedArtist) :=
  let artists := map (toWeighted (List.length artistsWithWeights)) artistsWithWeights in
  await results <- promiseAll (fun a => getSimilarArtists (wa_name a)) artists ;;
  ret (aggregate (combine artists results)).

(* ---------------------------------------------------------------- *)
(** *** recommendationEngine.js *)

(** The predicate of [similarArtists.filter]. *)
Definition keeps (seedNamesLower : list string) (minFreq : Z)
           (artist : AggregatedArtist) : bool :=
  let artistNameLower := toLowerCase (name artist) in
  negb (includes seedNamesLower artistNameLower)
  && (minFreq <=? Z.of_nat (frequency artist))%Z.

(** A destructuring default, [{ x = d } = options]: only [undefined] is
    replaced. *)
Definition orDefault (d : Z) (x : option Z) : Z :=
  match x with Some v => v | None => d end.

(** [x || d]: [undefined] and [0] are replaced. *)
Definition orElse (d : Z) (x : option Z) : Z :=
  match x with
  | Some v => if (v =? 0)%Z then d else v
  | None => d
  end.

Definition getRecommendations (playlistUrl : string) (options : Options)
  : Async Recommendations :=
  let limit := orDefault 20 (limit options) in
  let minFrequency := orDefault 1 (minFrequency options) in
  await seedArtists <- getPlaylistArtists playlistUrl ;;
  let seedArtistNames := map artist_name seedArtists in
  await similarArtists <- getSimilarArtistsForMultiple (map SeedName seedArtistNames) ;;
  let seedNamesLower := map toLowerCase seedArtistNames in
  let filtered := filter (keeps seedNamesLower minFrequency) similarArtists in
  let recommendations := slice0 filtered limit in
  ret {| seedArtists := seedArtists;
         recommendations := recommendations;
         totalFound := List.length filtered |}.

(** [playlists.map(...)]: a string gets the weight [100 / playlists.length]. *)
Definition withWeights (playlists : list PlaylistArg) : list Playlist :=
  map (fun p =>
         match p with
         | PlaylistUrl url =>
             {| playlist_url := url;
                playlist_weight :=
                  num_div (num_of_nat 100) (num_of_nat (List.length playlists)) |}
         | PlaylistWeighted p => p
         end)
      playlists.

Definition totalWeightOf (playlistsWithWeights : list Playlist) : num :=
  fold_left (fun sum p => num_add sum (playlist_weight p)) playlistsWithWeights num_zero.

(** The [forEach] that divides every weight by [totalWeight].  The objects
    of the array are distinct ones (they come out of a parsed request
    body), so updating them in place is updating the array elementwise. *)
Definition normalizeWeights (playlistsWithWeights : list Playlist) : list Playlist :=
  let totalWeight := totalWeightOf playlistsWithWeights in
  map (fun p => {| playlist_url := playlist_url p;
                   playlist_weight := num_div (playlist_weight p) totalWeight |})
      playlistsWithWeights.

(** The body of [for (const artist of artists)]. *)
Definition addSeed (weight : num) (artistWeightMap : JsMap.t SeedArtist)
           (artist : Artist) : JsMap.t SeedArtist :=
  if JsMap.has (artist_id artist) artistWeightMap
  then
    match JsMap.get (artist_id artist) artistWeightMap with
    | Some seed =>
        JsMap.set (artist_id artist)
          {| seed_id := seed_id seed;
             seed_name := seed_name seed;
             seed_weight := num_add (seed_weight seed) weight |}
          artistWeightMap
    | None => artistWeightMap
    end
  else
    JsMap.set (artist_id artist)
      {| seed_id := artist_id artist;
         seed_name := artist_name artist;
         seed_weight := weight |}
      artistWeightMap.

(** [for (const playlist of playlistsWithWeights)], from an empty map. *)
Definition collectSeeds (playlistsWithWeights : list Playlist)
  : Async (JsMap.t SeedArtist) :=
  forOf (fun artistWeightMap playlist =>
           await artists <- getPlaylistArtists (playlist_url playlist) ;;
           ret (fold_left (addSeed (playlist_weight playlist)) artists artistWeightMap))
        playlistsWithWeights JsMap.empty.

(** The seed mapping of a request: normalization, then collection. *)
Definition seedMapping (playlists : list PlaylistArg) : Async (JsMap.t SeedArtist) :=
  collectSeeds (normalizeWeights (withWeights playlists)).

(** [uniqueArtists.map(a => ({ name: a.name, weight: a.weight }))] *)
Definition weightedArtistsOf (uniqueArtists : list SeedArtist) : list WeightedArtist :=
  map (fun a => {| wa_name := seed_name a; wa_weight := seed_weight a |}) uniqueArtists.

Definition getRecommendationsFromMultiple (playlists : list PlaylistArg)
           (options : Options) : Async MultiRecommendations :=
  let playlistsWithWeights := normalizeWeights (withWeights playlists) in
  await artistWeightMap <- collectSeeds playlistsWithWeights ;;
  let uniqueArtists := JsMap.values artistWeightMap in
  let weightedArtists := weightedArtistsOf uniqueArtists in
  await similarArtists <- getSimilarArtistsForMultiple (map SeedWeighted weightedArtists) ;;
  let seedNamesLower := map (fun a => toLowerCase (seed_name a)) uniqueArtists in
  let filtered :=
    filter (keeps seedNamesLower (orElse 1 (minFrequency options))) similarArtists in
  let recommendations := slice0 filtered (orElse 20 (limit options)) in
  ret {| m_seedArtists :=
           map (fun a => {| artist_id := seed_id a; artist_name := seed_name a |})
               uniqueArtists;
         m_playlistWeights :=
           map (fun p => {| playlist_url := playlist_url p;
                            playlist_weight :=
                              num_round (num_mul (playlist_weight p) (num_of_nat 100)) |})
               playlistsWithWeights;
         m_recommendations := recommendations;
         m_totalFound := List.length filtered |}.

(* ---------------------------------------------------------------- *)
(** *** routes/api.js *)

(** A field of the request body that is expected to hold an array. *)
Inductive BodyField : Type :=
| Missing                                (* [undefined], or another falsy value *)
| NotAnArray                             (* a truthy value that is no array *)
| ArrayOf (items : list PlaylistArg).

Record Body : Type := {
  body_playlistUrls : BodyField;
  body_playlists : BodyField;
  body_limit : option Z;
  body_minFrequency : option Z
}.

Inductive Response : Type :=
| Status400 (error : string)
| Status500 (error : string)
| Json (result : MultiRecommendations).

(** [x && Array.isArray(x) && x.length > 0] *)
Definition usable (x : BodyField) : option (list PlaylistArg) :=
  match x with
  | ArrayOf (p :: r) => Some (p :: r)
  | _ => None
  end.

(** [router.post('/recommendations/multiple', ...)] *)
Definition postRecommendationsMultiple (body : Body) : Async Response :=
  let run playlistInput : Async Response :=
    fun h =>
      match getRecommendationsFromMultiple playlistInput
              {| limit := body_limit body; minFrequency := body_minFrequency body |} h with
      | (h', Returned result) => (h', Returned (Json result))
      | (h', Thrown message) =>
          (h', Returned (Status500 (if String.eqb message ""
                                    then "Failed to generate recommendations"
                                    else message)))
      end in
  match usable (body_playlists body) with
  | Some playlistInput => run playlistInput
  | None =>
      match usable (body_playlistUrls body) with
      | Some playlistInput => run playlistInput
      | None =>
          ret (Status400
                 "Either playlistUrls array or playlists array with weights is required")
      end
  end.
End Services.

(* ================================================================== *)
(** ** The older Last.fm service *)

(** [getSimilarArtistsForMultiple] as it was before playlists had weights:
    artist names in, [combinedScore = frequency * averageMatch]. *)
Module Legacy.
Section Service.
Context {num : Type} `{JsNumber num}.
Variable lastfmApi : History -> string -> option (list (@SimilarArtist num)).

(** The body of [allSimilarArtists.forEach]. *)
Definition count (maps : JsMap.t nat * JsMap.t (list num)) (artist : @SimilarArtist num)
  : JsMap.t nat * JsMap.t (list num) :=
  let nm := similar_name artist in
  let '(artistFrequency, artistScores) :=
    if negb (JsMap.has nm (fst maps))
    then (JsMap.set nm 0 (fst maps), JsMap.set nm [] (snd maps))
    else maps in
  let artistFrequency :=
    match JsMap.get nm artistFrequency with
    | Some f => JsMap.set nm (f + 1) artistFrequency
    | None => artistFrequency
    end in
  let artistScores :=
    match JsMap.get nm artistScores with
    | Some s => JsMap.set nm (s ++ [similar_match artist]) artistScores
    | None => artistScores
    end in
  (artistFrequency, artistScores).

Definition toAggregated (maps : JsMap.t nat * JsMap.t (list num)) (nm : string)
  : @AggregatedArtist num :=
  let frequency := match JsMap.get nm (fst maps) with Some f => f | None => 0 end in
  let scores := match JsMap.get nm (snd maps) with Some s => s | None => [] end in
  let avgScore := average scores in
  {| name := nm;
     frequency := frequency;
     averageMatch := avgScore;
     combinedScore := num_mul (num_of_nat frequency) avgScore |}.

(** Everything after [await Promise.all(promises)]. *)
Definition aggregate (results : list (list (@SimilarArtist num)))
  : list (@AggregatedArtist num) :=
  let allSimilarArtists := concat results in
  let maps := fold_left count allSimilarArtists (JsMap.empty, JsMap.empty) in
  let aggregatedArtists := map (toAggregated maps) (JsMap.keys (fst maps)) in
  sort byCombinedScore aggregatedArtists.

Definition getSimilarArtistsForMultiple (artistNames : list string)
  : Async (list (@AggregatedArtist num)) :=
  await results <- promiseAll (getSimilarArtists lastfmApi) artistNames ;;
  ret (aggregate results).
End Service.
End Legacy.

(* ================================================================== *)
(** ** What the claims speak about *)

Section Observations.
Context {num : Type} `{JsNumber num}.
Context `{JsString}.

(** Every (seed, candidate) pair of a fan-out, in the order the two
    [forEach] loops meet them. *)
Definition observations (results : list (@WeightedArtist num * list (@SimilarArtist num)))
  : list (@WeightedArtist num * @SimilarArtist num) :=
  flat_map (fun r => map (fun s => (fst r, s)) (snd r)) results.

Definition observedName (o : @WeightedArtist num * @SimilarArtist num) : string :=
  similar_name (snd o).

(** [similar.match * seedWeight] of one pair. *)
Definition weightedScore (o : @WeightedArtist num * @SimilarArtist num) : num :=
  num_mul (similar_match (snd o)) (wa_weight (fst o)).

(** The pairs in which the candidate called [nm] was returned. *)
Definition observationsOf (nm : string)
           (results : list (@WeightedArtist num * list (@SimilarArtist num)))
  : list (@WeightedArtist num * @SimilarArtist num) :=
  filter (fun o => String.eqb (observedName o) nm) (observations results).

(** A candidate passes both filters of the engine: its name, lowercased, is
    the lowercased name of no seed, and its frequency is at least [k]. *)
Definition passesFilters (seedNames : list string) (k : Z) (c : @AggregatedArtist num) : bool :=
  forallb (fun s => negb (String.eqb (toLowerCase (name c)) (toLowerCase s))) seedNames
  && (k <=? Z.of_nat (frequency c))%Z.


(** What the two versions of the service compute in the same way: the name,
    the frequency and the average match of a candidate. *)
Definition candidateInfo (a : @AggregatedArtist num) : string * nat * num :=
  (name a, frequency a, averageMatch a).

(** A candidate with its [combinedScore] multiplied by [c]. *)
Definition scaleScore (c : num) (a : @AggregatedArtist num) : @AggregatedArtist num :=
  {| name := name a;
     frequency := frequency a;
     averageMatch := averageMatch a;
     combinedScore := num_mul c (combinedScore a) |}.

(** What one pair does to the accumulator of its candidate: the three
    assignments of the inner [forEach]. *)
Definition bump (o : @WeightedArtist num * @SimilarArtist num) (data : @ArtistData num)
  : @ArtistData num :=
  {| data_frequency := data_frequency data + 1;
     weightedScoreSum := num_add (weightedScoreSum data) (weightedScore o);
     scores := scores data ++ [similar_match (snd o)] |}.

(** [{ frequency: 0, weightedScoreSum: 0, scores: [] }] *)
Definition fresh : @ArtistData num :=
  {| data_frequency := 0; weightedScoreSum := num_zero; scores := [] |}.
End Observations.

Section Resolution.
Context {num : Type} `{JsNumber num}.
Variable spotifyApi : History -> string -> option (list Track).

(** The playlists of a request, each with the artists Spotify resolved it to,
    in the order the loop of [getRecommendationsFromMultiple] fetches them. *)
Fixpoint resolveAll (playlistsWithWeights : list (@Playlist num))
  : Async (list (@Playlist num * list Artist)) :=
  match playlistsWithWeights with
  | [] => ret []
  | p :: r =>
      await artists <- getPlaylistArtists spotifyApi (playlist_url p) ;;
      await rest <- resolveAll r ;;
      ret ((p, artists) :: rest)
  end.

(** Every (playlist weight, artist) pair of the resolved playlists, in the
    order the two loops meet them. *)
Definition memberships (resolved : list (@Playlist num * list Artist))
  : list (num * Artist) :=
  flat_map (fun pa => map (fun a => (playlist_weight (fst pa), a)) (snd pa)) resolved.

(** The resolved playlists that hold the artist with id [i]. *)
Definition playlistsContaining (i : string) (resolved : list (@Playlist num * list Artist))
  : list (@Playlist num * list Artist) :=
  filter (fun pa => existsb (fun a => String.eqb (artist_id a) i) (snd pa)) resolved.

(** What a membership does to the seed that is there: [weight += w]. *)
Definition addWeight (x : num * Artist) (seed : @SeedArtist num) : @SeedArtist num :=
  {| seed_id := seed_id seed;
     seed_name := seed_name seed;
     seed_weight := num_add (seed_weight seed) (fst x) |}.

(** The seed a first membership creates: [{ ...artist, weight: w }]. *)
Definition newSeed (x : num * Artist) : @SeedArtist num :=
  {| seed_id := artist_id (snd x);
     seed_name := artist_name (snd x);
     seed_weight := fst x |}.

(** The sum of the weights of a seed mapping. *)
Definition seedWeightSum (seeds : JsMap.t (@SeedArtist num)) : num :=
  num_sum (map seed_weight (JsMap.values seeds)).
End Resolution.

(* ================================================================== *)
(** ** Concrete requests *)

Module Examples.

Definition similar (nm : string) (score : float) : @SimilarArtist float :=
  {| similar_name := nm; similar_match := score; similar_url := "" |}.

Definition seed (nm : string) (w : float) : @WeightedArtist float :=
  {| wa_name := nm; wa_weight := w |}.

(** One seed, whose lookup returns the same artist in two spellings. *)
Definition twoSpellings : list (@WeightedArtist float * list (@SimilarArtist float)) :=
  [ (seed "Thom Yorke" 1, [similar "Radiohead" 0.8; similar "RADIOHEAD" 0.6]) ].

(** The scenario of the specification: seeds A and B of weight 0.5 each. *)
Definition scenario : list (@WeightedArtist float * list (@SimilarArtist float)) :=
  [ (seed "A" 0.5, [similar "X" 0.8; similar "Y" 0.2]);
    (seed "B" 0.5, [similar "X" 0.6]) ].

(** Spotify: three playlists.  "mellow" and "upbeat" share the artist with id
    "a2"; "grunge" holds two different artists that are both called Nirvana. *)
Definition artist (i nm : string) : Artist := {| artist_id := i; artist_name := nm |}.

Definition track (title : string) (artists : list Artist) : Track :=
  {| track_name := title; track_artists := artists |}.

Definition spotify (h : History) (url : string) : option (list Track) :=
  if String.eqb url "mellow"
  then Some [track "t1" [artist "a1" "A"]; track "t2" [artist "a2" "B"; artist "a1" "A"]]
  else if String.eqb url "upbeat"
  then Some [track "t3" [artist "a2" "B"]; track "t4" [artist "a3" "C"]]
  else if String.eqb url "grunge"
  then Some [track "About a Girl" [artist "n1" "Nirvana"];
             track "Rainbow Chaser" [artist "n2" "Nirvana"]]
  else None.

(** Last.fm: the lookup of "A" also returns the seed "B", in lower case; the
    lookup of "C" fails. *)
Definition lastfm (h : History) (nm : string) : option (list (@SimilarArtist float)) :=
  if String.eqb nm "A" then Some [similar "X" 0.8; similar "Y" 0.2; similar "b" 0.5]
  else if String.eqb nm "B" then Some [similar "X" 0.6]
  else if String.eqb nm "Nirvana" then Some [similar "Mudhoney" 0.9]
  else None.

(** Last.fm, for three seeds: Y is similar to the first one, X to the other
    two. *)
Definition lastfmXY (h : History) (nm : string) : option (list (@SimilarArtist float)) :=
  if String.eqb nm "A" then Some [similar "Y" 0.08]
  else if String.eqb nm "B" then Some [similar "X" 0.01]
  else if String.eqb nm "C" then Some [similar "X" 0.07]
  else None.

(** What a run returned, or nothing. *)
Definition returned {A} (run : History * Outcome (list A)) : list A :=
  match snd run with
  | Returned xs => xs
  | Thrown _ => []
  end.

Definition options (l k : Z) : Options := {| limit := Some l; minFrequency := Some k |}.

Definition noOptions : Options := {| limit := None; minFrequency := None |}.

(** A request body whose two arrays are both empty. *)
Definition emptyBody : @Body float :=
  {| body_playlistUrls := ArrayOf [];
     body_playlists := ArrayOf [];
     body_limit := None;
     body_minFrequency := None |}.

Definition twoPlaylists : list (@PlaylistArg float) :=
  [PlaylistUrl "mellow"; PlaylistUrl "upbeat"].



(** The names of the seed artists of a run, and its lookups. *)
Definition seedNamesOf {num} (run : History * Outcome (@MultiRecommendations num))
  : list string :=
  match snd run with
  | Returned r => map artist_name (m_seedArtists r)
  | Thrown _ => []
  end.

Definition grungeRun : History * Outcome (@MultiRecommendations float) :=
  getRecommendationsFromMultiple spotify lastfm [PlaylistUrl "grunge"] noOptions [].

End Examples.

(* ================================================================== *)
(** ** spotifyService.js in detail: playlist ids and the access token *)

Module SpotifyService.

(** [[a-zA-Z0-9]] *)
Definition isAlnum (c : ascii) : bool :=
  let n := nat_of_ascii c in
  ((48 <=? n) && (n <=? 57)) || ((65 <=? n) && (n <=? 90)) || ((97 <=? n) && (n <=? 122)).

Fixpoint allAlnum (s : string) : bool :=
  match s with
  | EmptyString => true
  | String c r => isAlnum c && allAlnum r
  end.

(** The longest run of [[a-zA-Z0-9]] a string starts with: what the greedy
    group [([a-zA-Z0-9]+)] captures. *)
Fixpoint takeAlnum (s : string) : string :=
  match s with
  | EmptyString => EmptyString
  | String c r => if isAlnum c then String c (takeAlnum r) else EmptyString
  end.

(** A string that is empty or starts with a character outside
    [[a-zA-Z0-9]]: where a captured group ends. *)
Definition endsGroup (rest : string) : bool :=
  match rest with
  | EmptyString => true
  | String c _ => negb (isAlnum c)
  end.

(** What follows [literal] in [s], when [s] starts with it. *)
Fixpoint stripPrefix (literal s : string) : option string :=
  match literal, s with
  | EmptyString, _ => Some s
  | String a p, String b r => if Ascii.eqb a b then stripPrefix p r else None
  | String _ _, EmptyString => None
  end.

(** The pattern [literal([a-zA-Z0-9]+)] tried at the start of [s]. *)
Definition matchHere (literal s : string) : option string :=
  match stripPrefix literal s with
  | Some rest =>
      match takeAlnum rest with
      | EmptyString => None
      | group => Some group
      end
  | None => None
  end.

(** [s.match(/literal([a-zA-Z0-9]+)/)]: the group of the leftmost match. *)
Fixpoint matchPattern (literal s : string) : option string :=
  match matchHere literal s with
  | Some group => Some group
  | None =>
      match s with
      | EmptyString => None
      | String _ r => matchPattern literal r
      end
  end.

Definition extractPlaylistId (playlistUrl : string) : string :=
  match matchPattern "playlist/" playlistUrl with
  | Some group => group
  | None =>
      match matchPattern "playlist:" playlistUrl with
      | Some group => group
      | None => playlistUrl
      end
  end.

(** [this.accessToken] and [this.tokenExpiry]; [None] is [null]. *)
Record State : Type := {
  accessToken : option string;
  tokenExpiry : option Z
}.

(** The state a new [SpotifyService] starts in. *)
Definition initial : State := {| accessToken := None; tokenExpiry := None |}.

(** [response.data] of the token endpoint. *)
Record TokenResponse : Type := {
  access_token : string;
  expires_in : Z
}.

Inductive Request : Type :=
| TokenRequest
| TracksRequest (playlistId token : string).

(** [this.accessToken && this.tokenExpiry && Date.now() < this.tokenExpiry]:
    the token that is reused at time [now], if any.  An empty string and the
    number 0 are falsy. *)
Definition cachedToken (now : Z) (st : State) : option string :=
  match accessToken st, tokenExpiry st with
  | Some token, Some expiry =>
      if negb (String.eqb token "") && negb (expiry =? 0)%Z && (now <? expiry)%Z
      then Some token
      else None
  | _, _ => None
  end.

(** [getAccessToken], called at time [now]; when it asks for a token, the
    endpoint answers [tokenApi] ([None]: the request fails) and the answer
    is there at time [arrival]. *)
Definition getAccessToken (tokenApi : option TokenResponse) (now arrival : Z) (st : State)
  : State * list Request * Outcome string :=
  match cachedToken now st with
  | Some token => (st, [], Returned token)
  | None =>
      match tokenApi with
      | Some response =>
          ({| accessToken := Some (access_token response);
              tokenExpiry := Some (arrival + (expires_in response - 300) * 1000)%Z |},
           [TokenRequest],
           Returned (access_token response))
      | None => (st, [TokenRequest], Thrown "Failed to authenticate with Spotify")
      end
  end.

(** [getPlaylistTracks]: [tracksApi id token] is the answer of the tracks
    endpoint, already mapped to tracks ([None]: the request fails). *)
Definition getPlaylistTracks (tokenApi : option TokenResponse)
           (tracksApi : string -> string -> option (list Track))
           (now arrival : Z) (playlistUrl : string) (st : State)
  : State * list Request * Outcome (list Track) :=
  match getAccessToken tokenApi now arrival st with
  | (st', requests, Returned token) =>
      let playlistId := extractPlaylistId playlistUrl in
      match tracksApi playlistId token with
      | Some tracks => (st', requests ++ [TracksRequest playlistId token], Returned tracks)
      | None =>
          (st', requests ++ [TracksRequest playlistId token],
           Thrown "Failed to fetch playlist from Spotify")
      end
  | (st', requests, Thrown _) => (st', requests, Thrown "Failed to fetch playlist from Spotify")
  end.

End SpotifyService.

(* ================================================================== *)
(** ** The other route and the older engine *)

Section MoreServices.
Context {num : Type} `{JsNumber num}.
Context `{JsString}.
Variable spotifyApi : History -> string -> option (list Track).
Variable lastfmApi : History -> string -> option (list (@SimilarArtist num)).

(** The body of [POST /recommendations]; [None] is a missing field. *)
Record SingleBody : Type := {
  sbody_playlistUrl : option string;
  sbody_limit : option Z;
  sbody_minFrequency : option Z
}.

Inductive SingleResponse : Type :=
| SingleStatus400 (error : string)
| SingleStatus500 (error : string)
| SingleJson (result : @Recommendations num).

(** [error.message || 'Failed to generate recommendations'] *)
Definition messageOf (message : string) : string :=
  if String.eqb message "" then "Failed to generate recommendations" else message.

(** [router.post('/recommendations', ...)] *)
Definition postRecommendations (body : SingleBody) : Async SingleResponse :=
  let missing := ret (SingleStatus400 "playlistUrl is required") in
  match sbody_playlistUrl body with
  | None => missing
  | Some playlistUrl =>
      if String.eqb playlistUrl "" then missing
      else
        fun h =>
          match getRecommendations spotifyApi lastfmApi playlistUrl
                  {| limit := sbody_limit body; minFrequency := sbody_minFrequency body |} h with
          | (h', Returned result) => (h', Returned (SingleJson result))
          | (h', Thrown message) => (h', Returned (SingleStatus500 (messageOf message)))
          end
  end.
End MoreServices.

(** [getRecommendationsFromMultiple] as it was before playlists had weights:
    playlist urls in, every seed of equal weight. *)
Module LegacyEngine.
Section Engine.
Context {num : Type} `{JsNumber num}.
Context `{JsString}.
Variable spotifyApi : History -> string -> option (list Track).
Variable lastfmApi : History -> string -> option (list (@SimilarArtist num)).

(** [Array.from(new Map(allSeedArtists.map(a => [a.id, a])).values())]: an
    id keeps the place of its first artist and the object of its last. *)
Definition uniqueById (allSeedArtists : list Artist) : list Artist :=
  JsMap.values
    (fold_left (fun m a => JsMap.set (artist_id a) a m) allSeedArtists JsMap.empty).

(** [for (const url of playlistUrls) { allSeedArtists.push(...artists) }] *)
Definition collectArtists (playlistUrls : list string) : Async (list Artist) :=
  forOf (fun allSeedArtists url =>
           await artists <- getPlaylistArtists spotifyApi url ;;
           ret (allSeedArtists ++ artists))
        playlistUrls [].

Definition getRecommendationsFromMultiple (playlistUrls : list string) (options : Options)
  : Async (@Recommendations num) :=
  await allSeedArtists <- collectArtists playlistUrls ;;
  let uniqueArtists := uniqueById allSeedArtists in
  let seedArtistNames := map artist_name uniqueArtists in
  await similarArtists <- getSimilarArtistsForMultiple lastfmApi
                            (map SeedName seedArtistNames) ;;
  let seedNamesLower := map toLowerCase seedArtistNames in
  let filtered :=
    filter (keeps seedNamesLower (orElse 1 (minFrequency options))) similarArtists in
  let recommendations := slice0 filtered (orElse 20 (limit options)) in
  ret {| seedArtists := uniqueArtists;
         recommendations := recommendations;
         totalFound := List.length filtered |}.
End Engine.
End LegacyEngine.

(* ================================================================== *)
(** ** What the further properties speak about *)

Section MoreNotions.
Context {num : Type} `{JsNumber num}.

(** The answers of Last.fm to the lookups of [names], sent one after the
    other from history [h]; a failed lookup counts as an empty answer. *)
Fixpoint answers (lastfmApi : History -> string -> option (list (@SimilarArtist num)))
         (names : list string) (h : History) : list (list (@SimilarArtist num)) :=
  match names with
  | [] => []
  | nm :: r =>
      match lastfmApi h nm with Some l => l | None => [] end
      :: answers lastfmApi r (h ++ [LastfmGetSimilar nm])
  end.

(** A Last.fm that answers a failing lookup with an empty list. *)
Definition orEmpty (lastfmApi : History -> string -> option (list (@SimilarArtist num)))
  : History -> string -> option (list (@SimilarArtist num)) :=
  fun h nm => Some (match lastfmApi h nm with Some l => l | None => [] end).

(** The artists of a list, each id at its first occurrence only. *)
Fixpoint firstById (artists : list Artist) : list Artist :=
  match artists with
  | [] => []
  | a :: r =>
      a :: filter (fun b => negb (String.eqb (artist_id a) (artist_id b))) (firstById r)
  end.

(** The url of an element of [playlists]. *)
Definition urlOf (p : @PlaylistArg num) : string :=
  match p with
  | PlaylistUrl url => url
  | PlaylistWeighted p => playlist_url p
  end.

(** [a] may stand before [b] in a sorted result: the comparison the sort
    makes of them, [b.combinedScore - a.combinedScore], is not positive. *)
Definition mayPrecede (a b : @AggregatedArtist num) : bool :=
  negb (num_gt0 (byCombinedScore a b)).

(** The comparisons among the candidates of [l] are those of an order: of
    two candidates one may stand before the other, and [mayPrecede] is
    transitive.  A score that is NaN breaks this. *)
Definition orderedComparisons (l : list (@AggregatedArtist num)) : bool :=
  forallb (fun a =>
             forallb (fun b =>
                        (mayPrecede a b || mayPrecede b a)
                        && forallb (fun c =>
                                      implb (mayPrecede a b && mayPrecede b c)
                                            (mayPrecede a c))
                                   l)
                     l)
          l.

(** What each of [n] playlists given as strings gets: [100 / n], divided by
    the sum of [n] times [100 / n]. *)
Definition equalShare (n : nat) : num :=
  let w := num_div (num_of_nat 100) (num_of_nat n) in
  num_div w (num_sum (repeat w n)).



End MoreNotions.



(** Playlists of a request whose weights are integers. *)
Definition integerPlaylists (ws : list (string * Z)) : list (@Playlist Qc) :=
  map (fun uw => {| playlist_url := fst uw; playlist_weight := Q2Qc (inject_Z (snd uw)) |}) ws.

Module MoreExamples.

(** A playlist url that Spotify does not know, between two it knows. *)
Definition withUnknown : list (@PlaylistArg float) :=
  [PlaylistUrl "mellow"; PlaylistUrl "nowhere"; PlaylistUrl "upbeat"].

Definition tokenResponse : SpotifyService.TokenResponse :=
  {| SpotifyService.access_token := "BQDtoken"; SpotifyService.expires_in := 3600 |}.

Definition tracksApi (playlistId token : string) : option (list Track) :=
  if String.eqb playlistId "37i9dQZF1DXcBWIGoYBM5M"
  then Some [Examples.track "t1" [Examples.artist "a1" "A"]]
  else None.

(** A body that carries both fields. *)
Definition bothFields : @Body float :=
  {| body_playlistUrls := NotAnArray;
     body_playlists := ArrayOf Examples.twoPlaylists;
     body_limit := Some 5%Z;
     body_minFrequency := None |}.

(** Last.fm in exact arithmetic. *)
Definition similarExact (nm : string) (score : Q) : @SimilarArtist Qc :=
  {| similar_name := nm; similar_match := Q2Qc score; similar_url := "" |}.

Definition lastfmExact (h : History) (nm : string) : option (list (@SimilarArtist Qc)) :=
  if String.eqb nm "A" then Some [similarExact "X" (4 # 5); similarExact "Y" (1 # 5)]
  else if String.eqb nm "B" then Some [similarExact "X" (3 # 5)]
  else None.

End MoreExamples.

(* ================================================================== *)
(** ** Facts about maps *)

Module JsMapFacts.
Import JsMap.
Section Facts.
Context {V : Type}.
Implicit Types (m : JsMap.t V) (k : string) (v : V).

Lemma has_get k m : has k m = match get k m with Some _ => true | None => false end.
Proof. reflexivity. Qed.

Lemma get_In_keys k m : get k m <> None <-> In k (keys m).
Proof.
  induction m as [|[k' v'] r IH]; simpl.
  - split; [congruence|tauto].
  - destruct (String.eqb k' k) eqn:E.
    + apply String.eqb_eq in E. split; intros _; [left; exact E|congruence].
    + apply String.eqb_neq in E. rewrite IH. split; [tauto|intros [?|?]; tauto].
Qed.

Lemma has_true_iff k m : has k m = true <-> In k (keys m).
Proof.
  rewrite <- get_In_keys. unfold has. destruct (get k m); split; congruence.
Qed.

Lemma set_present k v v' m f init :
  get k m = Some v -> set k (f v) m = upsert k f init m.
Proof.
  induction m as [|[k' w] r IH]; simpl; [congruence|].
  destruct (String.eqb k' k); intros E.
  - inversion E; subst. reflexivity.
  - rewrite (IH E). reflexivity.
Qed.

Lemma set_absent k v m f :
  get k m = None -> set k v m = upsert k f v m.
Proof.
  induction m as [|[k' w] r IH]; simpl; [reflexivity|].
  destruct (String.eqb k' k); intros E; [congruence|].
  rewrite (IH E). reflexivity.
Qed.

Lemma get_set_same k v m : get k (set k v m) = Some v.
Proof.
  induction m as [|[k' w] r IH]; simpl.
  - rewrite String.eqb_refl. reflexivity.
  - destruct (String.eqb k' k) eqn:E; simpl; rewrite E; [reflexivity|exact IH].
Qed.

Lemma set_set k v v' m : set k v' (set k v m) = set k v' m.
Proof.
  induction m as [|[k' w] r IH]; simpl.
  - rewrite String.eqb_refl. reflexivity.
  - destruct (String.eqb k' k) eqn:E; simpl; rewrite E; [reflexivity|].
    rewrite IH. reflexivity.
Qed.

Lemma get_upsert_same k f init m :
  get k (upsert k f init m)
  = Some (match get k m with Some v => f v | None => init end).
Proof.
  induction m as [|[k' w] r IH]; simpl.
  - rewrite String.eqb_refl. reflexivity.
  - destruct (String.eqb k' k) eqn:E; simpl; rewrite E; [reflexivity|exact IH].
Qed.

Lemma get_upsert_other k k0 f init m :
  k0 <> k -> get k (upsert k0 f init m) = get k m.
Proof.
  intros N. induction m as [|[k' w] r IH]; simpl.
  - apply String.eqb_neq in N. rewrite N. reflexivity.
  - destruct (String.eqb k' k0) eqn:E; simpl.
    + apply String.eqb_eq in E. subst k'.
      apply String.eqb_neq in N. rewrite N. reflexivity.
    + rewrite IH. reflexivity.
Qed.

Lemma existsb_keys k m : existsb (String.eqb k) (keys m) = has k m.
Proof.
  unfold has. induction m as [|[k' w] r IH]; simpl; [reflexivity|].
  rewrite (String.eqb_sym k k'). destruct (String.eqb k' k); simpl; [reflexivity|exact IH].
Qed.

Lemma keys_upsert k f init m : keys (upsert k f init m) = addKey (keys m) k.
Proof.
  unfold addKey. induction m as [|[k' w] r IH]; simpl; [reflexivity|].
  rewrite (String.eqb_sym k k').
  destruct (String.eqb k' k) eqn:E; simpl; [reflexivity|].
  rewrite IH. destruct (existsb (String.eqb k) (keys r)); reflexivity.
Qed.

Lemma addKey_In ks k x : In x (addKey ks k) <-> In x ks \/ x = k.
Proof.
  unfold addKey. destruct (existsb (String.eqb k) ks) eqn:E.
  - apply existsb_exists in E. destruct E as [y [Hy Ey]].
    apply String.eqb_eq in Ey. subst y.
    split; [tauto|intros [?|?]; subst; assumption].
  - rewrite in_app_iff. simpl. intuition auto.
Qed.

Lemma addKey_NoDup ks k : NoDup ks -> NoDup (addKey ks k).
Proof.
  unfold addKey. intros N. destruct (existsb (String.eqb k) ks) eqn:E; [exact N|].
  apply NoDup_app; [exact N|constructor; [simpl; tauto|constructor]|].
  intros x Hx [Hk|[]]. subst x.
  assert (existsb (String.eqb k) ks = true); [|congruence].
  apply existsb_exists. exists k. split; [exact Hx|apply String.eqb_refl].
Qed.
End Facts.

(** Folding [upsert] over a list of items. *)
Section Folding.
Context {V X : Type}.
Variable key : X -> string.
Variable upd : X -> V -> V.
Variable init : X -> V.

Lemma get_fold k xs : forall m,
  get k (fold_left (step key upd init) xs m)
  = fold_left (stepAt key upd init k) xs (get k m).
Proof.
  induction xs as [|x r IH]; intros m; simpl; [reflexivity|].
  rewrite IH. f_equal. unfold step, stepAt.
  destruct (String.eqb (key x) k) eqn:E.
  - apply String.eqb_eq in E. rewrite <- E. apply get_upsert_same.
  - apply String.eqb_neq in E. apply get_upsert_other. exact E.
Qed.

Lemma keys_fold xs : forall m,
  keys (fold_left (step key upd init) xs m) = fold_left addKey (map key xs) (keys m).
Proof.
  induction xs as [|x r IH]; intros m; simpl; [reflexivity|].
  rewrite IH. unfold step. rewrite keys_upsert. reflexivity.
Qed.

Lemma fold_stepAt_filter k xs : forall o,
  fold_left (stepAt key upd init k) xs o
  = fold_left (stepAt key upd init k) (filter (fun x => String.eqb (key x) k) xs) o.
Proof.
  induction xs as [|x r IH]; intros o; simpl; [reflexivity|].
  destruct (String.eqb (key x) k) eqn:E; simpl.
  - apply IH.
  - unfold stepAt at 2. rewrite E. apply IH.
Qed.
Lemma fold_stepAt_Some k xs : forall v,
  Forall (fun x => key x = k) xs ->
  fold_left (stepAt key upd init k) xs (Some v)
  = Some (fold_left (fun v x => upd x v) xs v).
Proof.
  induction xs as [|x r IH]; intros v F; simpl; [reflexivity|].
  inversion F as [|? ? Hx Fr]; subst.
  unfold stepAt at 2. rewrite String.eqb_refl. apply IH, Fr.
Qed.

(** The entry of [k] after the fold, from an empty map. *)
Lemma get_fold_empty k xs :
  get k (fold_left (step key upd init) xs empty)
  = match filter (fun x => String.eqb (key x) k) xs with
    | [] => None
    | x :: r => Some (fold_left (fun v x => upd x v) r (init x))
    end.
Proof.
  rewrite get_fold, fold_stepAt_filter.
  assert (F : Forall (fun x => key x = k) (filter (fun x => String.eqb (key x) k) xs)).
  { apply Forall_forall. intros x I. apply filter_In in I. apply String.eqb_eq, I. }
  destruct (filter (fun x => String.eqb (key x) k) xs) as [|x r]; [reflexivity|].
  inversion F as [|? ? Hx Fr]; subst. cbn [fold_left get empty].
  unfold stepAt at 2. rewrite String.eqb_refl. apply fold_stepAt_Some, Fr.
Qed.
End Folding.

Lemma fold_addKey_In (ks : list string) : forall acc x,
  In x (fold_left addKey ks acc) <-> In x acc \/ In x ks.
Proof.
  induction ks as [|k r IH]; intros acc x; simpl; [tauto|].
  rewrite IH, addKey_In. intuition auto.
Qed.

Lemma fold_addKey_NoDup (ks : list string) : forall acc,
  NoDup acc -> NoDup (fold_left addKey ks acc).
Proof.
  induction ks as [|k r IH]; intros acc N; simpl; [exact N|].
  apply IH, addKey_NoDup, N.
Qed.
End JsMapFacts.

(* ================================================================== *)
(** ** Facts about sorting *)

Section SortFacts.
Context {A num : Type} `{JsNumber num}.
Variable compareFn : A -> A -> num.

Lemma sortInsert_perm x l : Permutation (sortInsert compareFn x l) (x :: l).
Proof.
  induction l as [|y r IH]; simpl; [apply Permutation_refl|].
  destruct (num_gt0 (compareFn x y)).
  - eapply Permutation_trans; [apply perm_skip, IH|apply perm_swap].
  - apply Permutation_refl.
Qed.

Lemma sort_perm l : Permutation (sort compareFn l) l.
Proof.
  induction l as [|x r IH]; simpl; [apply perm_nil|].
  eapply Permutation_trans; [apply sortInsert_perm|apply perm_skip, IH].
Qed.

Lemma sort_In l x : In x (sort compareFn l) <-> In x l.
Proof.
  split; apply Permutation_in; [|apply Permutation_sym]; apply sort_perm.
Qed.

Lemma sort_Forall (P : A -> Prop) l : Forall P l -> Forall P (sort compareFn l).
Proof.
  apply Permutation_Forall, Permutation_sym, sort_perm.
Qed.

Lemma sort_length l : List.length (sort compareFn l) = List.length l.
Proof. apply Permutation_length, sort_perm. Qed.
End SortFacts.

(* ================================================================== *)
(** ** Facts about the aggregation *)

Section AggregateFacts.
Context {num : Type} `{JsNumber num}.
Implicit Types (results : list (@WeightedArtist num * list (@SimilarArtist num))).

Local Abbreviation accStep := (JsMap.step observedName bump (fun o => bump o fresh)).

Lemma accumulate_step (a : @WeightedArtist num) m (s : @SimilarArtist num) :
  accumulate (wa_weight a) m s = accStep m (a, s).
Proof.
  unfold accumulate, JsMap.step, observedName; simpl.
  rewrite JsMapFacts.has_get.
  destruct (JsMap.get (similar_name s) m) as [data|] eqn:G; simpl.
  - rewrite G.
    exact (JsMapFacts.set_present _ data data m (bump (a, s)) (bump (a, s) fresh) G).
  - rewrite JsMapFacts.get_set_same, JsMapFacts.set_set.
    apply (JsMapFacts.set_absent _ (bump (a, s) fresh) m (bump (a, s)) G).
Qed.

Lemma accumulate_inner (a : @WeightedArtist num) sims : forall m,
  fold_left (accumulate (wa_weight a)) sims m
  = fold_left accStep (map (fun s => (a, s)) sims) m.
Proof.
  induction sims as [|s r IH]; intros m; simpl; [reflexivity|].
  rewrite accumulate_step. apply IH.
Qed.

Lemma accumulate_outer results : forall m,
  fold_left (fun artistData r =>
               fold_left (accumulate (wa_weight (fst r))) (snd r) artistData)
            results m
  = fold_left accStep (observations results) m.
Proof.
  induction results as [|r rs IH]; intros m; simpl; [reflexivity|].
  rewrite fold_left_app, <- accumulate_inner. apply IH.
Qed.

Lemma accumulateAll_fold results :
  accumulateAll results = fold_left accStep (observations results) JsMap.empty.
Proof. apply accumulate_outer. Qed.

Lemma fold_bump os : forall data,
  fold_left (fun d o => bump o d) os data
  = {| data_frequency := data_frequency data + List.length os;
       weightedScoreSum := fold_left num_add (map weightedScore os) (weightedScoreSum data);
       scores := scores data ++ map (fun o => similar_match (snd o)) os |}.
Proof.
  induction os as [|o r IH]; intros data; simpl.
  - rewrite Nat.add_0_r, app_nil_r. destruct data; reflexivity.
  - rewrite IH. simpl. f_equal.
    + lia.
    + rewrite <- app_assoc. reflexivity.
Qed.

Lemma observationsOf_Forall k results :
  Forall (fun o => observedName o = k) (observationsOf k results).
Proof.
  apply Forall_forall. intros o Ho. apply filter_In in Ho.
  apply String.eqb_eq, Ho.
Qed.

(** The accumulator of a candidate after both loops. *)
Lemma get_accumulateAll k results :
  JsMap.get k (accumulateAll results)
  = match observationsOf k results with
    | [] => None
    | os =>
        Some {| data_frequency := List.length os;
                weightedScoreSum := num_sum (map weightedScore os);
                scores := map (fun o => similar_match (snd o)) os |}
    end.
Proof.
  rewrite accumulateAll_fold, JsMapFacts.get_fold_empty.
  fold (observationsOf k results).
  destruct (observationsOf k results) as [|o r]; [reflexivity|].
  change (fold_left (fun v x => bump x v) r (bump o fresh))
    with (fold_left (fun d x => bump x d) (o :: r) fresh).
  rewrite fold_bump. reflexivity.
Qed.

Lemma keys_accumulateAll results :
  JsMap.keys (accumulateAll results)
  = fold_left JsMap.addKey (map observedName (observations results)) [].
Proof. rewrite accumulateAll_fold. apply JsMapFacts.keys_fold. Qed.

Lemma name_toAggregated m k : name (toAggregated m k) = k.
Proof. unfold toAggregated. destruct (JsMap.get k m); reflexivity. Qed.

Lemma names_unsorted m ks : map name (map (toAggregated m) ks) = ks.
Proof.
  induction ks as [|k r IH]; simpl; [reflexivity|].
  rewrite name_toAggregated, IH. reflexivity.
Qed.

Lemma names_aggregate results :
  Permutation (map name (aggregate results)) (JsMap.keys (accumulateAll results)).
Proof.
  unfold aggregate.
  eapply Permutation_trans; [apply Permutation_map, sort_perm|].
  rewrite names_unsorted. apply Permutation_refl.
Qed.

Lemma In_names_aggregate results nm :
  In nm (map name (aggregate results))
  <-> In nm (map observedName (observations results)).
Proof.
  split; intros I.
  - apply (Permutation_in _ (names_aggregate results)) in I.
    rewrite keys_accumulateAll in I. apply JsMapFacts.fold_addKey_In in I.
    destruct I as [[]|I]. exact I.
  - apply (Permutation_in _ (Permutation_sym (names_aggregate results))).
    rewrite keys_accumulateAll. apply JsMapFacts.fold_addKey_In. right. exact I.
Qed.

(** An entry of the result, as the observations determine it. *)
Lemma aggregate_entries results :
  Forall (fun a =>
            observationsOf (name a) results <> []
            /\ frequency a = List.length (observationsOf (name a) results)
            /\ averageMatch a
               = average (map (fun o => similar_match (snd o))
                              (observationsOf (name a) results))
            /\ combinedScore a
               = num_sum (map weightedScore (observationsOf (name a) results)))
         (aggregate results).
Proof.
  unfold aggregate. apply sort_Forall, Forall_forall. intros a Ha.
  apply in_map_iff in Ha. destruct Ha as [k [<- Hk]].
  rewrite name_toAggregated.
  apply JsMapFacts.get_In_keys in Hk.
  unfold toAggregated. rewrite get_accumulateAll in *.
  destruct (observationsOf k results) as [|o r]; [congruence|].
  simpl. repeat split. congruence.
Qed.
End AggregateFacts.

(* ================================================================== *)
(** ** Aggregation: keys and scores *)

Section AggregationClaims.
Context {num : Type} `{JsNumber num}.

(** C1, as the code has it.  [artistData] is keyed by the candidate's name as
    it was returned: the result holds exactly one entry for every distinct
    name among the observed candidates, names being compared as strings
    (case-sensitively).  No two entries share a name, and a name is in the
    result if and only if some lookup returned it. *)
Theorem aggregate_one_entry_per_exact_name
        (results : list (@WeightedArtist num * list (@SimilarArtist num))) :
  NoDup (map name (aggregate results))
  /\ forall nm, In nm (map name (aggregate results))
                <-> In nm (map observedName (observations results)).
Proof.
  split.
  - apply (Permutation_NoDup (Permutation_sym (names_aggregate results))).
    rewrite keys_accumulateAll. apply JsMapFacts.fold_addKey_NoDup. constructor.
  - intros nm. apply In_names_aggregate.
Qed.

(** C3.  The [combinedScore] of every aggregated candidate is the sum, from 0
    and in the order the loops run, of [match * weight] over every (seed,
    candidate) pair in which a lookup returned that candidate; and every
    candidate a lookup returned has such an entry. *)
Theorem combinedScore_is_sum_of_weighted_matches
        (results : list (@WeightedArtist num * list (@SimilarArtist num))) :
  Forall (fun a => combinedScore a
                   = num_sum (map weightedScore (observationsOf (name a) results)))
         (aggregate results)
  /\ Forall (fun o => exists a, In a (aggregate results) /\ name a = observedName o)
            (observations results).
Proof.
  split.
  - eapply Forall_impl; [|apply aggregate_entries]. intros a Ha. apply Ha.
  - apply Forall_forall. intros o Ho.
    assert (I : In (observedName o) (map name (aggregate results))).
    { apply In_names_aggregate, in_map, Ho. }
    apply in_map_iff in I. destruct I as [a [E I]]. exists a. split; assumption.
Qed.
End AggregationClaims.

(** C1, as the specification states it, fails: a lookup that returns
    "Radiohead" and "RADIOHEAD" yields two entries whose names are equal up to
    case. *)
Lemma aggregate_keeps_both_spellings :
  map name (aggregate Examples.twoSpellings) = ["Radiohead"; "RADIOHEAD"]
  /\ toLowerCase "Radiohead" = toLowerCase "RADIOHEAD"
  /\ ~ NoDup (map (fun a => toLowerCase (name a)) (aggregate Examples.twoSpellings)).
Proof.
  split; [vm_compute; reflexivity|]. split; [vm_compute; reflexivity|].
  intros N. vm_compute in N. inversion N as [|x l NI _]; subst.
  apply NI. left. reflexivity.
Qed.

(** The scenario of the specification, run on doubles: X before Y. *)
Example scenario_ranking :
  map (fun a => (name a, frequency a)) (aggregate Examples.scenario) = [("X", 2); ("Y", 1)].
Proof. vm_compute. reflexivity. Qed.

(* ================================================================== *)
(** ** Facts about [async] functions and arrays *)

Lemma bind_Returned {A B} (c : Async A) (k : A -> Async B) h h' b :
  bind c k h = (h', Returned b) ->
  exists h1 a, c h = (h1, Returned a) /\ k a h1 = (h', Returned b).
Proof.
  unfold bind. destruct (c h) as [h1 [a|e]]; intros E.
  - exists h1, a. split; [reflexivity|exact E].
  - discriminate E.
Qed.

Lemma ret_Returned {A} (a b : A) h h' : ret a h = (h', Returned b) -> h' = h /\ b = a.
Proof. unfold ret. intros E. inversion E. split; reflexivity. Qed.

Lemma filter_isLookup_app h names :
  filter isLookup (h ++ map LastfmGetSimilar names)
  = filter isLookup h ++ map LastfmGetSimilar names.
Proof.
  rewrite filter_app. f_equal.
  induction names as [|n r IH]; simpl; [reflexivity|]. rewrite IH. reflexivity.
Qed.


Lemma slice0_length {A} (xs : list A) (l : Z) :
  List.length (slice0 xs l) <= List.length xs.
Proof. unfold slice0. rewrite length_firstn. apply Nat.le_min_r. Qed.

Lemma negb_includes_map (f : string -> string) (xs : list string) (s : string) :
  negb (includes (map f xs) s) = forallb (fun x => negb (String.eqb s (f x))) xs.
Proof.
  unfold includes. induction xs as [|x r IH]; simpl; [reflexivity|].
  rewrite negb_orb, IH. reflexivity.
Qed.

(* ================================================================== *)
(** ** Facts about the services *)

Section ServiceFacts.
Context {num : Type} `{JsNumber num}.
Context `{JsString}.
Variable spotifyApi : History -> string -> option (list Track).
Variable lastfmApi : History -> string -> option (list (@SimilarArtist num)).

Lemma promiseAll_lookups {X} (f : X -> string) xs : forall h,
  exists results,
    promiseAll (fun a => getSimilarArtists lastfmApi (f a)) xs h
    = (h ++ map LastfmGetSimilar (map f xs), Returned results)
    /\ List.length results = List.length xs.
Proof.
  induction xs as [|x r IH]; intros h; simpl.
  - exists []. rewrite app_nil_r. split; reflexivity.
  - unfold bind at 1. unfold getSimilarArtists at 1.
    destruct (IH (h ++ [LastfmGetSimilar (f x)])) as [ys [E L]].
    unfold bind. rewrite E. eexists. split.
    + unfold ret. rewrite <- app_assoc. reflexivity.
    + simpl. rewrite L. reflexivity.
Qed.

(** The fan-out never throws: it sends one request per element of its
    argument, in order, and returns the aggregation of the answers. *)
Lemma getSimilarArtistsForMultiple_run (args : list (@SeedArg num)) h :
  exists results,
    List.length results = List.length args
    /\ getSimilarArtistsForMultiple lastfmApi args h
       = (h ++ map LastfmGetSimilar
                   (map (fun a => wa_name (toWeighted (List.length args) a)) args),
          Returned (aggregate (combine (map (toWeighted (List.length args)) args) results))).
Proof.
  unfold getSimilarArtistsForMultiple.
  destruct (promiseAll_lookups (@wa_name num)
              (map (toWeighted (List.length args)) args) h) as [results [E L]].
  exists results. split.
  - rewrite L, length_map. reflexivity.
  - unfold bind. rewrite E. unfold ret.
    rewrite (map_map (toWeighted (List.length args)) (@wa_name num)). reflexivity.
Qed.


Lemma getPlaylistArtists_history url h h' (o : Outcome (list Artist)) :
  getPlaylistArtists spotifyApi url h = (h', o) -> h' = h ++ [SpotifyPlaylistTracks url].
Proof.
  unfold getPlaylistArtists, bind, getPlaylistTracks, ret, throw.
  destruct (spotifyApi h url); intros E; inversion E; reflexivity.
Qed.

(** Collecting the seeds sends requests to Spotify only. *)
Lemma collectSeeds_lookups pls : forall (m : JsMap.t (@SeedArtist num)) h h' o,
  forOf (fun artistWeightMap playlist =>
           await artists <- getPlaylistArtists spotifyApi (playlist_url playlist) ;;
           ret (fold_left (addSeed (playlist_weight playlist)) artists artistWeightMap))
        pls m h = (h', o) ->
  filter isLookup h' = filter isLookup h.
Proof.
  induction pls as [|p r IH]; intros m h h' o; simpl.
  - unfold ret. intros E. inversion E. reflexivity.
  - unfold bind at 1. unfold bind at 1.
    destruct (getPlaylistArtists spotifyApi (playlist_url p) h) as [h1 [artists|e]] eqn:G;
      apply getPlaylistArtists_history in G; subst h1.
    + unfold ret at 1. intros E. apply IH in E. rewrite E, filter_app. simpl.
      apply app_nil_r.
    + intros E. inversion E. rewrite filter_app. simpl. apply app_nil_r.
Qed.

(** A run of [getRecommendationsFromMultiple] that returns, stage by stage. *)
Lemma getRecommendationsFromMultiple_Returned playlists options h h' r :
  getRecommendationsFromMultiple spotifyApi lastfmApi playlists options h = (h', Returned r) ->
  exists h1 seeds similar,
    seedMapping spotifyApi playlists h = (h1, Returned seeds)
    /\ getSimilarArtistsForMultiple lastfmApi
         (map SeedWeighted (weightedArtistsOf (JsMap.values seeds))) h1
       = (h', Returned similar)
    /\ m_seedArtists r
       = map (fun a => {| artist_id := seed_id a; artist_name := seed_name a |})
             (JsMap.values seeds)
    /\ m_recommendations r
       = slice0 (filter (keeps (map (fun a => toLowerCase (seed_name a)) (JsMap.values seeds))
                               (orElse 1 (minFrequency options)))
                        similar)
                (orElse 20 (limit options))
    /\ m_totalFound r
       = List.length
           (filter (keeps (map (fun a => toLowerCase (seed_name a)) (JsMap.values seeds))
                          (orElse 1 (minFrequency options)))
                   similar).
Proof.
  unfold getRecommendationsFromMultiple, seedMapping. intros E.
  apply bind_Returned in E. destruct E as (h1 & seeds & E1 & E).
  apply bind_Returned in E. destruct E as (h2 & similar & E2 & E).
  apply ret_Returned in E. destruct E as [-> ->].
  exists h1, seeds, similar. repeat split; assumption.
Qed.

(** A run of [getRecommendations] that returns, stage by stage. *)
Lemma getRecommendations_Returned url options h h' r :
  getRecommendations spotifyApi lastfmApi url options h = (h', Returned r) ->
  exists h1 similar,
    getPlaylistArtists spotifyApi url h = (h1, Returned (seedArtists r))
    /\ getSimilarArtistsForMultiple lastfmApi
         (map SeedName (map artist_name (seedArtists r))) h1
       = (h', Returned similar)
    /\ recommendations r
       = slice0 (filter (keeps (map toLowerCase (map artist_name (seedArtists r)))
                               (orDefault 1 (minFrequency options)))
                        similar)
                (orDefault 20 (limit options))
    /\ totalFound r
       = List.length
           (filter (keeps (map toLowerCase (map artist_name (seedArtists r)))
                          (orDefault 1 (minFrequency options)))
                   similar).
Proof.
  unfold getRecommendations. intros E.
  apply bind_Returned in E. destruct E as (h1 & seeds & E1 & E).
  apply bind_Returned in E. destruct E as (h2 & similar & E2 & E).
  apply ret_Returned in E. destruct E as [-> ->].
  exists h1, similar. repeat split; assumption.
Qed.


(** The engine's filter on names is the filter on lowercased names. *)
Lemma keeps_passesFilters (names : list string) (k : Z) (c : @AggregatedArtist num) :
  keeps (map toLowerCase names) k c = passesFilters names k c.
Proof.
  unfold keeps, passesFilters. rewrite negb_includes_map. reflexivity.
Qed.
End ServiceFacts.

(* ================================================================== *)
(** ** Filtering and ranking *)

Section RankingClaims.
Context {num : Type} `{JsNumber num}.
Context `{JsString}.
Variable spotifyApi : History -> string -> option (list Track).
Variable lastfmApi : History -> string -> option (list (@SimilarArtist num)).

Lemma In_slice0 {A} (xs : list A) (l : Z) (x : A) : In x (slice0 xs l) -> In x xs.
Proof.
  unfold slice0. intros I.
  rewrite <- (firstn_skipn (Z.to_nat
    (if (l <? 0)%Z then Z.max (Z.of_nat (List.length xs) + l) 0
     else Z.min l (Z.of_nat (List.length xs)))) xs).
  apply in_or_app. left. exact I.
Qed.

Lemma kept_is_no_seed (names : list string) (k : Z) (similar : list (@AggregatedArtist num))
      (l : Z) c s :
  In c (slice0 (filter (keeps (map toLowerCase names) k) similar) l) ->
  In s names ->
  toLowerCase (name c) <> toLowerCase s.
Proof.
  intros Ic Is. apply In_slice0, filter_In in Ic. destruct Ic as [_ K].
  rewrite keeps_passesFilters in K. unfold passesFilters in K.
  apply andb_true_iff in K. destruct K as [K _].
  rewrite forallb_forall in K. specialize (K s Is).
  apply negb_true_iff, String.eqb_neq in K. exact K.
Qed.

(** C8.  Whatever the scores, the frequencies and the options, and whatever
    [toLowerCase] maps a string to: a candidate whose lowercased name is the
    lowercased name of a seed artist is in no list of recommendations,
    neither of [getRecommendationsFromMultiple] nor of [getRecommendations]. *)
Theorem seed_artists_are_never_recommended :
  (forall playlists options h h' r,
      getRecommendationsFromMultiple spotifyApi lastfmApi playlists options h
      = (h', Returned r) ->
      forall c s, In c (m_recommendations r) -> In s (m_seedArtists r) ->
                  toLowerCase (name c) <> toLowerCase (artist_name s))
  /\ (forall playlistUrl options h h' r,
         getRecommendations spotifyApi lastfmApi playlistUrl options h
         = (h', Returned r) ->
         forall c s, In c (recommendations r) -> In s (seedArtists r) ->
                     toLowerCase (name c) <> toLowerCase (artist_name s)).
Proof.
  split.
  - intros playlists options h h' r E c s Ic Is.
    apply getRecommendationsFromMultiple_Returned in E.
    destruct E as (h1 & seeds & similar & _ & _ & Es & Er & _).
    rewrite Er in Ic. rewrite Es in Is.
    apply in_map_iff in Is. destruct Is as [a [<- Ia]]. simpl.
    rewrite <- (map_map seed_name toLowerCase) in Ic.
    apply (kept_is_no_seed _ _ _ _ _ _ Ic). apply in_map, Ia.
  - intros url options h h' r E c s Ic Is.
    apply getRecommendations_Returned in E.
    destruct E as (h1 & similar & _ & _ & Er & _).
    rewrite Er in Ic.
    apply (kept_is_no_seed _ _ _ _ _ _ Ic). apply in_map, Is.
Qed.




(** C4, as the code has it.  A request whose playlist arrays are empty (or
    missing) is answered by the route handler with status 400, before any
    request is sent and without the engine being called.  The engine itself,
    called with an empty sequence, sends no request either and returns a
    normal, empty result with [totalFound = 0]. *)
Theorem empty_input_is_rejected_by_the_route :
  (forall body h,
      usable (body_playlists body) = None ->
      usable (body_playlistUrls body) = None ->
      postRecommendationsMultiple spotifyApi lastfmApi body h
      = (h, Returned
              (Status400
                 "Either playlistUrls array or playlists array with weights is required")))
  /\ (forall options h,
         getRecommendationsFromMultiple spotifyApi lastfmApi [] options h
         = (h, Returned {| m_seedArtists := [];
                           m_playlistWeights := [];
                           m_recommendations := [];
                           m_totalFound := 0 |})).
Proof.
  split.
  - intros body h U1 U2. unfold postRecommendationsMultiple. rewrite U1, U2. reflexivity.
  - intros options h. unfold getRecommendationsFromMultiple, getSimilarArtistsForMultiple.
    simpl. unfold bind, ret. simpl. unfold slice0. rewrite firstn_nil. reflexivity.
Qed.
End RankingClaims.

(** Witness of C8: a request over two playlists returns; its seeds are A, B
    and C, the lookup of A returned "b", and the recommendations are X and Y. *)
Lemma seed_artists_are_never_recommended_witness :
  exists h' r,
    getRecommendationsFromMultiple Examples.spotify Examples.lastfm
      Examples.twoPlaylists Examples.noOptions [] = (h', Returned r)
    /\ map artist_name (m_seedArtists r) = ["A"; "B"; "C"]
    /\ map name (m_recommendations r) = ["X"; "Y"]
    /\ forall c s, In c (m_recommendations r) -> In s (m_seedArtists r) ->
                   toLowerCase (name c) <> toLowerCase (artist_name s).
Proof.
  eexists. eexists. split; [vm_compute; reflexivity|].
  split; [reflexivity|]. split; [reflexivity|].
  eapply (proj1 (seed_artists_are_never_recommended Examples.spotify Examples.lastfm)
            Examples.twoPlaylists Examples.noOptions []).
  vm_compute. reflexivity.
Defined.


(** Witness of C4: a body with two empty arrays is answered with status 400
    and no request is sent. *)
Lemma empty_input_is_rejected_by_the_route_witness :
  usable (body_playlists Examples.emptyBody) = None
  /\ usable (body_playlistUrls Examples.emptyBody) = None
  /\ postRecommendationsMultiple Examples.spotify Examples.lastfm Examples.emptyBody []
     = ([], Returned
              (Status400
                 "Either playlistUrls array or playlists array with weights is required")).
Proof.
  split; [reflexivity|]. split; [reflexivity|].
  apply (proj1 (empty_input_is_rejected_by_the_route Examples.spotify Examples.lastfm));
    reflexivity.
Defined.

(** C4, as the specification states it, fails: on the empty sequence the
    engine does not fail, it returns an empty result. *)
Lemma empty_sequence_returns_normally :
  getRecommendationsFromMultiple Examples.spotify Examples.lastfm [] Examples.noOptions []
  = ([], Returned {| m_seedArtists := [];
                     m_playlistWeights := [];
                     m_recommendations := [];
                     m_totalFound := 0 |})
  /\ ~ exists message,
         snd (getRecommendationsFromMultiple Examples.spotify Examples.lastfm []
                Examples.noOptions [])
         = Thrown message.
Proof.
  split; [vm_compute; reflexivity|].
  intros [message E]. vm_compute in E. discriminate E.
Qed.

(* ================================================================== *)
(** ** Facts about seed extraction *)

Section MapInvariants.
Context {V : Type}.
Variable P : string -> V -> Prop.

Lemma upsert_Forall k (f : V -> V) init (m : JsMap.t V) :
  Forall (fun kv => P (fst kv) (snd kv)) m ->
  P k init ->
  (forall v, P k v -> P k (f v)) ->
  Forall (fun kv => P (fst kv) (snd kv)) (JsMap.upsert k f init m).
Proof.
  intros F Pi Pf. induction m as [|[k' v] r IH]; simpl.
  - constructor; [exact Pi|constructor].
  - inversion F as [|? ? Pv Fr]; subst. simpl in Pv.
    destruct (String.eqb k' k) eqn:E.
    + apply String.eqb_eq in E. subst k'. constructor; [apply Pf, Pv|exact Fr].
    + constructor; [exact Pv|apply IH, Fr].
Qed.

Lemma set_Forall k v (m : JsMap.t V) :
  Forall (fun kv => P (fst kv) (snd kv)) m ->
  P k v ->
  Forall (fun kv => P (fst kv) (snd kv)) (JsMap.set k v m).
Proof.
  intros F Pv. induction m as [|[k' v'] r IH]; simpl.
  - constructor; [exact Pv|constructor].
  - inversion F as [|? ? Pv' Fr]; subst. simpl in Pv'.
    destruct (String.eqb k' k) eqn:E.
    + apply String.eqb_eq in E. subst k'. constructor; [exact Pv|exact Fr].
    + constructor; [exact Pv'|apply IH, Fr].
Qed.
End MapInvariants.

Lemma keys_set {V} k (v : V) (m : JsMap.t V) :
  JsMap.keys (JsMap.set k v m) = JsMap.addKey (JsMap.keys m) k.
Proof.
  assert (E : JsMap.set k v m = JsMap.upsert k (fun _ => v) v m).
  { induction m as [|[k' v'] r IH]; simpl; [reflexivity|].
    destruct (String.eqb k' k); [reflexivity|]. rewrite IH. reflexivity. }
  rewrite E. apply JsMapFacts.keys_upsert.
Qed.

(** The artists of a playlist, as [getPlaylistArtists] returns them, have
    pairwise different ids. *)
Lemma uniqueArtistsOf_NoDup (tracks : list Track) :
  NoDup (map artist_id (uniqueArtistsOf tracks)).
Proof.
  unfold uniqueArtistsOf.
  assert (G : forall ts (m : JsMap.t Artist),
             NoDup (JsMap.keys m) /\ Forall (fun kv => artist_id (snd kv) = fst kv) m ->
             let m' := fold_left (fun artistMap track =>
                                    fold_left addArtist (track_artists track) artistMap)
                                 ts m in
             NoDup (JsMap.keys m') /\ Forall (fun kv => artist_id (snd kv) = fst kv) m').
  { assert (G1 : forall arts (m : JsMap.t Artist),
               NoDup (JsMap.keys m) /\ Forall (fun kv => artist_id (snd kv) = fst kv) m ->
               NoDup (JsMap.keys (fold_left addArtist arts m))
               /\ Forall (fun kv => artist_id (snd kv) = fst kv) (fold_left addArtist arts m)).
    { induction arts as [|a r IH]; intros m I; simpl; [exact I|].
      apply IH. unfold addArtist. destruct (JsMap.has (artist_id a) m); simpl; [exact I|].
      destruct I as [N F]. split.
      - rewrite keys_set. apply JsMapFacts.addKey_NoDup, N.
      - apply (set_Forall (fun k v => artist_id v = k)); [exact F|reflexivity]. }
    induction ts as [|t r IH]; intros m I; simpl; [exact I|].
    apply IH, G1, I. }
  specialize (G tracks JsMap.empty (conj (NoDup_nil _) (Forall_nil _))).
  simpl in G. destruct G as [N F].
  replace (map artist_id (JsMap.values _)) with
    (JsMap.keys (fold_left (fun artistMap track =>
                              fold_left addArtist (track_artists track) artistMap)
                           tracks JsMap.empty)); [exact N|].
  unfold JsMap.keys, JsMap.values. rewrite map_map.
  apply map_ext_in. intros kv I. rewrite Forall_forall in F. symmetry. apply F, I.
Qed.

Section SeedFacts.
Context {num : Type} `{JsNumber num}.
Variable spotifyApi : History -> string -> option (list Track).

Local Abbreviation seedKey := (fun x : num * Artist => artist_id (snd x)).
Local Abbreviation seedStep := (JsMap.step seedKey addWeight newSeed).

Lemma addSeed_step (w : num) (m : JsMap.t (@SeedArtist num)) (a : Artist) :
  addSeed w m a = seedStep m (w, a).
Proof.
  unfold addSeed, JsMap.step. rewrite JsMapFacts.has_get. simpl.
  destruct (JsMap.get (artist_id a) m) as [seed|] eqn:G.
  - exact (JsMapFacts.set_present _ seed seed m (addWeight (w, a)) (newSeed (w, a)) G).
  - exact (JsMapFacts.set_absent _ (newSeed (w, a)) m (addWeight (w, a)) G).
Qed.

Lemma addSeed_inner (w : num) arts : forall m,
  fold_left (addSeed w) arts m = fold_left seedStep (map (fun a => (w, a)) arts) m.
Proof.
  induction arts as [|a r IH]; intros m; simpl; [reflexivity|].
  rewrite addSeed_step. apply IH.
Qed.

Lemma mergeSeeds_fold (resolved : list (@Playlist num * list Artist)) : forall m,
  fold_left (fun m pa => fold_left (addSeed (playlist_weight (fst pa))) (snd pa) m) resolved m
  = fold_left seedStep (memberships resolved) m.
Proof.
  induction resolved as [|pa r IH]; intros m; simpl; [reflexivity|].
  unfold memberships. simpl. rewrite fold_left_app, <- addSeed_inner. apply IH.
Qed.

(** The loop of [collectSeeds], read as: resolve every playlist, then merge
    the memberships. *)
Lemma collectSeeds_resolved pls : forall (m : JsMap.t (@SeedArtist num)) h h' seeds,
  forOf (fun artistWeightMap playlist =>
           await artists <- getPlaylistArtists spotifyApi (playlist_url playlist) ;;
           ret (fold_left (addSeed (playlist_weight playlist)) artists artistWeightMap))
        pls m h = (h', Returned seeds) ->
  exists resolved,
    resolveAll spotifyApi pls h = (h', Returned resolved)
    /\ map fst resolved = pls
    /\ Forall (fun pa => NoDup (map artist_id (snd pa))) resolved
    /\ seeds = fold_left seedStep (memberships resolved) m.
Proof.
  induction pls as [|p r IH]; intros m h h' seeds; simpl.
  - intros E. apply ret_Returned in E. destruct E as [-> ->].
    exists []. repeat split. constructor.
  - intros E. apply bind_Returned in E. destruct E as (h1 & m1 & E1 & E).
    apply bind_Returned in E1. destruct E1 as (h2 & artists & E1 & E2).
    apply ret_Returned in E2. destruct E2 as [-> ->].
    apply IH in E. destruct E as (resolved & R & Ef & N & ->).
    exists ((p, artists) :: resolved). split; [|split; [|split]].
    + unfold bind at 1. rewrite E1. unfold bind at 1. rewrite R. reflexivity.
    + simpl. rewrite Ef. reflexivity.
    + constructor; [|exact N]. simpl.
      unfold getPlaylistArtists in E1. apply bind_Returned in E1.
      destruct E1 as (h3 & tracks & _ & E1). apply ret_Returned in E1.
      destruct E1 as [_ ->]. apply uniqueArtistsOf_NoDup.
    + unfold memberships. simpl. rewrite fold_left_app, <- addSeed_inner. reflexivity.
Qed.

Lemma seedMapping_resolved playlists h h' (seeds : JsMap.t (@SeedArtist num)) :
  seedMapping spotifyApi playlists h = (h', Returned seeds) ->
  exists resolved,
    resolveAll spotifyApi (normalizeWeights (withWeights playlists)) h
    = (h', Returned resolved)
    /\ map fst resolved = normalizeWeights (withWeights playlists)
    /\ Forall (fun pa => NoDup (map artist_id (snd pa))) resolved
    /\ seeds = fold_left seedStep (memberships resolved) JsMap.empty.
Proof. apply collectSeeds_resolved. Qed.

(** Keys are ids: every seed sits under its own id, and no id occurs twice. *)
Lemma seeds_keyed_by_id (xs : list (num * Artist)) :
  NoDup (JsMap.keys (fold_left seedStep xs JsMap.empty))
  /\ map seed_id (JsMap.values (fold_left seedStep xs JsMap.empty))
     = JsMap.keys (fold_left seedStep xs JsMap.empty).
Proof.
  split.
  - rewrite JsMapFacts.keys_fold. apply JsMapFacts.fold_addKey_NoDup. constructor.
  - assert (F : forall ys (m : JsMap.t (@SeedArtist num)),
               Forall (fun kv => seed_id (snd kv) = fst kv) m ->
               Forall (fun kv => seed_id (snd kv) = fst kv) (fold_left seedStep ys m)).
    { induction ys as [|y r IH]; intros m F; simpl; [exact F|].
      apply IH. unfold JsMap.step.
      apply (upsert_Forall (fun k v => seed_id v = k)); [exact F|reflexivity|].
      intros v E. exact E. }
    specialize (F xs JsMap.empty (Forall_nil _)).
    unfold JsMap.keys, JsMap.values. rewrite map_map.
    apply map_ext_in. intros kv I. rewrite Forall_forall in F. apply F, I.
Qed.
End SeedFacts.

Section SharedArtists.
Context {num : Type} `{JsNumber num}.
Context `{JsString}.
Variable spotifyApi : History -> string -> option (list Track).

Local Abbreviation seedKey := (fun x : num * Artist => artist_id (snd x)).
Local Abbreviation seedStep := (JsMap.step seedKey addWeight newSeed).

Lemma fold_addWeight xs : forall seed : @SeedArtist num,
  fold_left (fun s x => addWeight x s) xs seed
  = {| seed_id := seed_id seed;
       seed_name := seed_name seed;
       seed_weight := fold_left num_add (map fst xs) (seed_weight seed) |}.
Proof.
  induction xs as [|x r IH]; intros seed; simpl.
  - destruct seed; reflexivity.
  - rewrite IH. reflexivity.
Qed.

(** In a playlist whose artists have different ids, at most one has id [i]. *)
Lemma filter_id_NoDup i (arts : list Artist) :
  NoDup (map artist_id arts) ->
  (existsb (fun a => String.eqb (artist_id a) i) arts = false
   /\ filter (fun a => String.eqb (artist_id a) i) arts = [])
  \/ (existsb (fun a => String.eqb (artist_id a) i) arts = true
      /\ exists a, artist_id a = i
                   /\ filter (fun a => String.eqb (artist_id a) i) arts = [a]).
Proof.
  induction arts as [|a r IH]; simpl; intros N; [left; split; reflexivity|].
  inversion N as [|? ? NI Nr]; subst. specialize (IH Nr).
  destruct (String.eqb (artist_id a) i) eqn:E; simpl.
  - right. split; [reflexivity|]. apply String.eqb_eq in E. exists a. split; [exact E|].
    destruct IH as [[_ ->]|[_ [b [Eb Fb]]]]; [reflexivity|].
    exfalso. apply NI. rewrite E, <- Eb.
    assert (I : In b (filter (fun a0 => String.eqb (artist_id a0) i) r))
      by (rewrite Fb; left; reflexivity).
    apply filter_In in I. apply in_map, I.
  - exact IH.
Qed.

(** The memberships of the artist with id [i]: one for every playlist that
    holds it, with that playlist's weight, in order. *)
Lemma memberships_of i (resolved : list (@Playlist num * list Artist)) :
  Forall (fun pa => NoDup (map artist_id (snd pa))) resolved ->
  exists xs,
    filter (fun x => String.eqb (seedKey x) i) (memberships resolved) = xs
    /\ map fst xs = map (fun pa => playlist_weight (fst pa)) (playlistsContaining i resolved)
    /\ Forall (fun x => seedKey x = i) xs.
Proof.
  induction resolved as [|[p arts] r IH]; intros F.
  - exists []. repeat split. constructor.
  - inversion F as [|? ? N Fr]; subst. destruct (IH Fr) as (xs & E & W & K).
    unfold memberships, playlistsContaining in *. simpl.
    rewrite filter_app, E.
    assert (M : filter (fun x : num * Artist => String.eqb (artist_id (snd x)) i)
                       (map (fun a => (playlist_weight p, a)) arts)
                = map (fun a => (playlist_weight p, a))
                      (filter (fun a => String.eqb (artist_id a) i) arts)).
    { clear. induction arts as [|a r IH]; simpl; [reflexivity|].
      destruct (String.eqb (artist_id a) i); simpl; rewrite IH; reflexivity. }
    rewrite M. simpl in N.
    destruct (filter_id_NoDup i arts N) as [[-> ->]|[-> [a [Ea ->]]]]; simpl.
    + exists xs. repeat split; assumption.
    + exists ((playlist_weight p, a) :: xs). split; [reflexivity|]. split.
      * simpl. rewrite W. reflexivity.
      * constructor; [exact Ea|exact K].
Qed.

(** The weight of a seed is the weight of the first playlist that holds the
    artist, plus, one after the other, those of the later ones. *)
Lemma seed_weight_of i (resolved : list (@Playlist num * list Artist)) :
  Forall (fun pa => NoDup (map artist_id (snd pa))) resolved ->
  match map (fun pa => playlist_weight (fst pa)) (playlistsContaining i resolved) with
  | [] => JsMap.get i (fold_left seedStep (memberships resolved) JsMap.empty) = None
  | w :: ws =>
      exists seed,
        JsMap.get i (fold_left seedStep (memberships resolved) JsMap.empty) = Some seed
        /\ seed_id seed = i
        /\ seed_weight seed = fold_left num_add ws w
  end.
Proof.
  intros F. destruct (memberships_of i resolved F) as (xs & E & W & K).
  rewrite JsMapFacts.get_fold_empty, E, <- W.
  destruct xs as [|x r]; simpl; [reflexivity|].
  inversion K as [|? ? Kx Kr]; subst.
  rewrite fold_addWeight.
  eexists. split; [reflexivity|]. split; reflexivity.
Qed.

(** C6.  When a request's seed mapping is built, an artist (one id) that is
    in exactly two of the resolved playlists gets the first one's normalized
    weight plus the second one's: the weights are added, the artist keeps one
    entry. *)
Theorem shared_artist_weight_is_sum playlists h h' (seeds : JsMap.t (@SeedArtist num)) :
  seedMapping spotifyApi playlists h = (h', Returned seeds) ->
  exists resolved,
    resolveAll spotifyApi (normalizeWeights (withWeights playlists)) h
    = (h', Returned resolved)
    /\ map fst resolved = normalizeWeights (withWeights playlists)
    /\ forall i p1 arts1 p2 arts2,
         playlistsContaining i resolved = [(p1, arts1); (p2, arts2)] ->
         exists seed,
           JsMap.get i seeds = Some seed
           /\ seed_id seed = i
           /\ seed_weight seed = num_add (playlist_weight p1) (playlist_weight p2).
Proof.
  intros E. apply seedMapping_resolved in E. destruct E as (resolved & R & Ef & N & ->).
  exists resolved. split; [exact R|]. split; [exact Ef|].
  intros i p1 arts1 p2 arts2 C.
  pose proof (seed_weight_of i resolved N) as S. rewrite C in S. exact S.
Qed.

(** C7, as the code has it.  One similarity lookup is sent for every seed
    artist, that is for every distinct artist id, under the artist's name and
    in the order of the seed list: the number of lookups is the number of
    seed artists.  Names are not compared, so a name that two seed artists
    share is looked up twice. *)
Theorem one_lookup_per_seed_artist lastfmApi playlists options h h' r :
  getRecommendationsFromMultiple spotifyApi lastfmApi playlists options h
  = (h', Returned r) ->
  NoDup (map artist_id (m_seedArtists r))
  /\ filter isLookup h'
     = filter isLookup h ++ map LastfmGetSimilar (map artist_name (m_seedArtists r))
  /\ lookupCount h' = lookupCount h + List.length (m_seedArtists r).
Proof.
  intros E. apply getRecommendationsFromMultiple_Returned in E.
  destruct E as (h1 & seeds & similar & E1 & E2 & Es & _).
  assert (L : filter isLookup h'
              = filter isLookup h
                ++ map LastfmGetSimilar (map artist_name (m_seedArtists r))).
  { pose proof (collectSeeds_lookups spotifyApi _ _ _ _ _ E1) as L1.
    destruct (getSimilarArtistsForMultiple_run lastfmApi
                (map SeedWeighted (weightedArtistsOf (JsMap.values seeds))) h1)
      as (results & _ & E3).
    rewrite E3 in E2. inversion E2 as [[Eh Er]].
    rewrite filter_isLookup_app, L1, Es. f_equal. f_equal.
    unfold weightedArtistsOf. rewrite !map_map. reflexivity. }
  split; [|split; [exact L|]].
  - apply seedMapping_resolved in E1. destruct E1 as (resolved & _ & _ & _ & ->).
    rewrite Es, map_map. cbn [artist_id].
    destruct (seeds_keyed_by_id (memberships resolved)) as [N K].
    change (fun x : SeedArtist => seed_id x) with (@seed_id num). rewrite K. exact N.
  - unfold lookupCount. rewrite L, length_app, !length_map. reflexivity.
Qed.
Lemma get_value {V} (m : JsMap.t V) (k : string) (v : V) :
  NoDup (JsMap.keys m) -> In (k, v) m -> JsMap.get k m = Some v.
Proof.
  induction m as [|[k' v'] r IH]; simpl; intros N I; [destruct I|].
  inversion N as [|? ? Nk Nr]; subst. destruct I as [E|I].
  - inversion E; subst. rewrite String.eqb_refl. reflexivity.
  - destruct (String.eqb k' k) eqn:K; [|exact (IH Nr I)].
    apply String.eqb_eq in K. subst k'. exfalso. apply Nk.
    change k with (fst (k, v)). apply in_map, I.
Qed.

(** C2, as the code has it.  The seed mapping of a request holds the ids
    that occur in a resolved playlist, and no other; and every seed artist
    carries the normalized weight of the first playlist that holds it plus,
    one after the other, those of the later playlists that hold it.  Nothing
    divides these weights by the number of artists. *)
Theorem seed_weights_are_sums_over_playlists
        playlists h h' (seeds : JsMap.t (@SeedArtist num)) :
  seedMapping spotifyApi playlists h = (h', Returned seeds) ->
  exists resolved,
    resolveAll spotifyApi (normalizeWeights (withWeights playlists)) h
    = (h', Returned resolved)
    /\ map fst resolved = normalizeWeights (withWeights playlists)
    /\ (forall i, In i (map seed_id (JsMap.values seeds))
                  <-> playlistsContaining i resolved <> [])
    /\ Forall (fun seed =>
                 exists w ws,
                   map (fun pa => playlist_weight (fst pa))
                       (playlistsContaining (seed_id seed) resolved)
                   = w :: ws
                   /\ seed_weight seed = fold_left num_add ws w)
              (JsMap.values seeds).
Proof.
  intros E. apply seedMapping_resolved in E. destruct E as (resolved & R & Ef & N & ->).
  exists resolved. split; [exact R|]. split; [exact Ef|].
  destruct (seeds_keyed_by_id (memberships resolved)) as [Nk K].
  split.
  - intros i. rewrite K, <- JsMapFacts.get_In_keys.
    pose proof (seed_weight_of i resolved N) as S.
    destruct (playlistsContaining i resolved) as [|pa r]; simpl in S.
    + rewrite S. split; intros C; exfalso; apply C; reflexivity.
    + destruct S as (seed & -> & _). split; intros _; discriminate.
  - apply Forall_forall. intros seed I.
    apply in_map_iff in I. destruct I as ([k v] & Ev & I). simpl in Ev. subst v.
    assert (Ek : seed_id seed = k).
    { unfold JsMap.values, JsMap.keys in K. rewrite map_map in K.
      exact (proj1 map_ext_in_iff K (k, seed) I). }
    pose proof (get_value _ k seed Nk I) as G.
    pose proof (seed_weight_of k resolved N) as S. rewrite Ek.
    destruct (map (fun pa => playlist_weight (fst pa)) (playlistsContaining k resolved))
      as [|w ws].
    + rewrite S in G. discriminate G.
    + destruct S as (seed' & G' & _ & W). rewrite G in G'. inversion G'; subst seed'.
      exists w, ws. split; [reflexivity|exact W].
Qed.
End SharedArtists.

(** Witness of C6: artist "a2" is in both playlists of the request, each of
    normalized weight 0.5, and gets weight 0.5 + 0.5. *)
Lemma shared_artist_weight_is_sum_witness :
  exists h' seeds,
    seedMapping Examples.spotify Examples.twoPlaylists [] = (h', Returned seeds)
    /\ map (fun s => (seed_id s, seed_weight s)) (JsMap.values seeds)
       = [("a1", 0.5%float); ("a2", 1%float); ("a3", 0.5%float)]
    /\ exists seed,
         JsMap.get "a2" seeds = Some seed
         /\ seed_id seed = "a2"
         /\ seed_weight seed = num_add 0.5%float 0.5%float.
Proof.
  eexists. eexists. split; [vm_compute; reflexivity|]. split; [reflexivity|].
  destruct (shared_artist_weight_is_sum Examples.spotify Examples.twoPlaylists [] _ _
              eq_refl) as (resolved & R & _ & S).
  vm_compute in R. inversion R as [Er]. clear R.
  apply (S "a2"
           {| playlist_url := "mellow"; playlist_weight := 0.5%float |}
           [Examples.artist "a1" "A"; Examples.artist "a2" "B"]
           {| playlist_url := "upbeat"; playlist_weight := 0.5%float |}
           [Examples.artist "a2" "B"; Examples.artist "a3" "C"]).
  rewrite <- Er. vm_compute. reflexivity.
Defined.

(** Witness of C7: the request over two playlists has three seed artists and
    sends three lookups. *)
Lemma one_lookup_per_seed_artist_witness :
  exists h' r,
    getRecommendationsFromMultiple Examples.spotify Examples.lastfm
      Examples.twoPlaylists Examples.noOptions [] = (h', Returned r)
    /\ lookupCount h' = 3
    /\ NoDup (map artist_id (m_seedArtists r))
    /\ filter isLookup h'
       = filter isLookup [] ++ map LastfmGetSimilar (map artist_name (m_seedArtists r))
    /\ lookupCount h' = lookupCount [] + List.length (m_seedArtists r).
Proof.
  eexists. eexists. split; [vm_compute; reflexivity|]. split; [reflexivity|].
  apply (one_lookup_per_seed_artist Examples.spotify Examples.lastfm
           Examples.twoPlaylists Examples.noOptions []).
  vm_compute. reflexivity.
Defined.

(** C7, as the specification states it, fails: the playlist "grunge" holds two
    artists with different ids that are both called Nirvana; the name is
    looked up twice, and there is one distinct name. *)
Lemma same_name_is_looked_up_twice :
  fst Examples.grungeRun
  = [SpotifyPlaylistTracks "grunge"; LastfmGetSimilar "Nirvana"; LastfmGetSimilar "Nirvana"]
  /\ Examples.seedNamesOf Examples.grungeRun = ["Nirvana"; "Nirvana"]
  /\ lookupCount (fst Examples.grungeRun) = 2
  /\ List.length (distinct (Examples.seedNamesOf Examples.grungeRun)) = 1
  /\ lookupCount (fst Examples.grungeRun)
     <> List.length (distinct (Examples.seedNamesOf Examples.grungeRun)).
Proof.
  split; [vm_compute; reflexivity|]. split; [vm_compute; reflexivity|].
  split; [vm_compute; reflexivity|]. split; [vm_compute; reflexivity|].
  vm_compute. discriminate.
Qed.

(* ================================================================== *)
(** ** Weights in exact arithmetic *)

Module ExactFacts.
Local Open Scope Qc_scope.

Lemma sum_from (xs : list Qc) : forall a, fold_left Qcplus xs a = a + fold_left Qcplus xs 0.
Proof.
  induction xs as [|x r IH]; intros a; simpl.
  - ring.
  - rewrite IH, (IH (0 + x)). ring.
Qed.

Lemma num_sum_cons (x : Qc) xs : num_sum (x :: xs) = x + num_sum xs.
Proof.
  unfold num_sum. cbn. rewrite sum_from. change (Q2Qc 0) with 0. ring.
Qed.

Lemma num_sum_scaled (c : Qc) xs : num_sum (map (fun x => x * c) xs) = num_sum xs * c.
Proof.
  induction xs as [|x r IH]; simpl.
  - unfold num_sum. cbn. change (Q2Qc 0) with 0. ring.
  - rewrite !num_sum_cons, IH. ring.
Qed.



Lemma num_of_nat_S (n : nat) : num_of_nat (num:=Qc) (S n) = num_of_nat n + 1.
Proof. reflexivity. Qed.


End ExactFacts.

Section ExactWeights.
Local Open Scope Qc_scope.

End ExactWeights.

Section Shares.
Context {num : Type} `{JsNumber num}.

Lemma totalWeightOf_num_sum (pls : list (@Playlist num)) :
  totalWeightOf pls = num_sum (map playlist_weight pls).
Proof.
  unfold totalWeightOf, num_sum. generalize (@num_zero num _).
  induction pls as [|p r IH]; intros a; simpl; [reflexivity|]. apply IH.
Qed.



(** Playlists given as strings all get [100 / N]. *)
Lemma weights_unweighted (urls : list string) :
  map playlist_weight (withWeights (map (@PlaylistUrl num) urls))
  = repeat (num_div (num_of_nat 100) (num_of_nat (List.length urls))) (List.length urls).
Proof.
  unfold withWeights. rewrite !map_map, length_map. cbn [playlist_weight].
  generalize (num_div (num_of_nat 100) (num_of_nat (List.length urls))). intros w.
  induction urls as [|u r IH]; simpl; [reflexivity|]. rewrite IH. reflexivity.
Qed.
End Shares.







(** Witness of C2: the request over two playlists, on doubles; each playlist
    has the normalized weight 0.5, and the artist "a2", who is in both,
    carries 0.5 + 0.5. *)
Lemma seed_weights_are_sums_over_playlists_witness :
  exists h' seeds,
    seedMapping Examples.spotify Examples.twoPlaylists [] = (h', Returned seeds)
    /\ map (fun s => (seed_id s, seed_weight s)) (JsMap.values seeds)
       = [("a1", 0.5%float); ("a2", 1%float); ("a3", 0.5%float)]
    /\ exists resolved,
         resolveAll Examples.spotify
           (normalizeWeights (withWeights Examples.twoPlaylists)) []
         = (h', Returned resolved)
         /\ map fst resolved = normalizeWeights (withWeights Examples.twoPlaylists)
         /\ (forall i, In i (map seed_id (JsMap.values seeds))
                       <-> playlistsContaining i resolved <> [])
         /\ Forall (fun seed =>
                      exists w ws,
                        map (fun pa => playlist_weight (fst pa))
                            (playlistsContaining (seed_id seed) resolved)
                        = w :: ws
                        /\ seed_weight seed = fold_left num_add ws w)
                   (JsMap.values seeds).
Proof.
  eexists. eexists. split; [vm_compute; reflexivity|]. split; [vm_compute; reflexivity|].
  apply (seed_weights_are_sums_over_playlists Examples.spotify Examples.twoPlaylists []).
  vm_compute. reflexivity.
Defined.

(** C2, as the specification states it, fails: in the request over two
    playlists the seeds A, B and C get the weights 0.5, 1 and 0.5, which sum
    to 2. *)
Lemma seed_weights_sum_to_two :
  exists h' seeds,
    seedMapping Examples.spotify Examples.twoPlaylists [] = (h', Returned seeds)
    /\ map (fun s => (seed_name s, seed_weight s)) (JsMap.values seeds)
       = [("A", 0.5%float); ("B", 1%float); ("C", 0.5%float)]
    /\ seedWeightSum seeds = 2%float
    /\ Float64.near_one (seedWeightSum seeds) = false
    /\ seedWeightSum seeds <> 1%float.
Proof.
  eexists. eexists. split; [vm_compute; reflexivity|].
  split; [vm_compute; reflexivity|]. split; [vm_compute; reflexivity|].
  split; [vm_compute; reflexivity|].
  intros E. apply (f_equal Float64.near_one) in E. vm_compute in E. discriminate E.
Qed.

(* ================================================================== *)
(** ** The older aggregation and the current one *)

Lemma promiseAll_map {A B C} (g : B -> Async C) (f : A -> B) (xs : list A) :
  promiseAll (fun a => g (f a)) xs = promiseAll g (map f xs).
Proof.
  induction xs as [|x r IH]; simpl; [reflexivity|]. rewrite IH. reflexivity.
Qed.

Section LegacyFacts.
Context {num : Type} `{JsNumber num}.

Local Abbreviation stepF :=
  (JsMap.step (@similar_name num) (fun _ f => f + 1) (fun _ => 0 + 1)).
Local Abbreviation stepS :=
  (JsMap.step (@similar_name num) (fun s l => l ++ [similar_match s])
              (fun s => [] ++ [similar_match s])).

Lemma count_step (maps : JsMap.t nat * JsMap.t (list num)) (s : @SimilarArtist num) :
  JsMap.keys (fst maps) = JsMap.keys (snd maps) ->
  Legacy.count maps s = (stepF (fst maps) s, stepS (snd maps) s).
Proof.
  destruct maps as [fm sm]. simpl. intros K.
  assert (Hs : JsMap.has (similar_name s) sm = JsMap.has (similar_name s) fm).
  { rewrite <- !JsMapFacts.existsb_keys, K. reflexivity. }
  unfold Legacy.count, JsMap.step. simpl. rewrite !JsMapFacts.has_get in *.
  destruct (JsMap.get (similar_name s) fm) as [f|] eqn:Gf;
    destruct (JsMap.get (similar_name s) sm) as [l|] eqn:Gs; try discriminate Hs; simpl.
  - rewrite Gf, Gs. f_equal.
    + exact (JsMapFacts.set_present _ f f fm (fun f => f + 1) (0 + 1) Gf).
    + exact (JsMapFacts.set_present _ l l sm (fun l => l ++ [similar_match s])
               ([] ++ [similar_match s]) Gs).
  - rewrite !JsMapFacts.get_set_same, !JsMapFacts.set_set. f_equal.
    + exact (JsMapFacts.set_absent _ (0 + 1) fm (fun f => f + 1) Gf).
    + exact (JsMapFacts.set_absent _ ([] ++ [similar_match s]) sm
               (fun l => l ++ [similar_match s]) Gs).
Qed.

Lemma count_fold (sims : list (@SimilarArtist num)) :
  forall maps : JsMap.t nat * JsMap.t (list num),
    JsMap.keys (fst maps) = JsMap.keys (snd maps) ->
    fold_left Legacy.count sims maps
    = (fold_left stepF sims (fst maps), fold_left stepS sims (snd maps)).
Proof.
  induction sims as [|s r IH]; intros maps K; simpl.
  - destruct maps; reflexivity.
  - rewrite (count_step maps s K). rewrite IH; [reflexivity|].
    simpl. unfold JsMap.step. rewrite !JsMapFacts.keys_upsert, K. reflexivity.
Qed.

Lemma fold_increment {X} (xs : list X) : forall n,
  fold_left (fun f (_ : X) => f + 1) xs n = n + List.length xs.
Proof.
  induction xs as [|x r IH]; intros n; simpl; [lia|]. rewrite IH. lia.
Qed.

Lemma fold_push (xs : list (@SimilarArtist num)) : forall l,
  fold_left (fun l s => l ++ [similar_match s]) xs l = l ++ map similar_match xs.
Proof.
  induction xs as [|x r IH]; intros l; simpl; [symmetry; apply app_nil_r|].
  rewrite IH, <- app_assoc. reflexivity.
Qed.

(** An entry of the older, unsorted result, as the flattened answers
    determine it. *)
Lemma legacy_entry (sims : list (@SimilarArtist num)) k x r :
  filter (fun s => String.eqb (similar_name s) k) sims = x :: r ->
  Legacy.toAggregated (fold_left Legacy.count sims (JsMap.empty, JsMap.empty)) k
  = {| name := k;
       frequency := List.length (x :: r);
       averageMatch := average (map similar_match (x :: r));
       combinedScore := num_mul (num_of_nat (List.length (x :: r)))
                                (average (map similar_match (x :: r))) |}.
Proof.
  intros E. rewrite (count_fold sims (JsMap.empty, JsMap.empty) eq_refl).
  unfold Legacy.toAggregated. cbn [fst snd].
  rewrite !JsMapFacts.get_fold_empty, E, fold_increment, fold_push. reflexivity.
Qed.

(** The same entry of the current, unsorted result. *)
Lemma current_entry (results : list (@WeightedArtist num * list (@SimilarArtist num))) k o r :
  observationsOf k results = o :: r ->
  toAggregated (accumulateAll results) k
  = {| name := k;
       frequency := List.length (o :: r);
       averageMatch := average (map (fun o => similar_match (snd o)) (o :: r));
       combinedScore := num_sum (map weightedScore (o :: r)) |}.
Proof.
  intros E. unfold toAggregated. rewrite get_accumulateAll, E. reflexivity.
Qed.

Lemma observations_combine (artists : list (@WeightedArtist num)) :
  forall results : list (list (@SimilarArtist num)),
    List.length results = List.length artists ->
    map snd (observations (combine artists results)) = concat results.
Proof.
  unfold observations.
  induction artists as [|a r IH]; intros [|x xs] L; simpl in *; try discriminate L;
    [reflexivity|].
  rewrite map_app, map_map. simpl. rewrite map_id, IH; [reflexivity|lia].
Qed.

Lemma observations_weights (c : num) (artists : list (@WeightedArtist num)) :
  Forall (fun a => wa_weight a = c) artists ->
  forall results : list (list (@SimilarArtist num)),
    Forall (fun o => wa_weight (fst o) = c) (observations (combine artists results)).
Proof.
  unfold observations.
  induction 1 as [|a r Ha _ IH]; intros [|x xs]; simpl; try constructor.
  apply Forall_app. split; [|apply IH].
  apply Forall_forall. intros o I. apply in_map_iff in I. destruct I as [s [<- _]]. exact Ha.
Qed.

Lemma filter_map_snd {A B} (f : B -> bool) (xs : list (A * B)) :
  map snd (filter (fun o => f (snd o)) xs) = filter f (map snd xs).
Proof.
  induction xs as [|x r IH]; simpl; [reflexivity|].
  destruct (f (snd x)); simpl; rewrite IH; reflexivity.
Qed.

(** Whatever the weights and the arithmetic: the older and the current
    aggregation of the same answers hold the same candidates, with the same
    frequencies and averages. *)
Lemma same_candidates (artists : list (@WeightedArtist num))
      (results : list (list (@SimilarArtist num))) :
  List.length results = List.length artists ->
  Permutation (map candidateInfo (Legacy.aggregate results))
              (map candidateInfo (aggregate (combine artists results))).
Proof.
  intros L. pose proof (observations_combine artists results L) as Os.
  unfold Legacy.aggregate, aggregate.
  eapply Permutation_trans; [apply Permutation_map, sort_perm|].
  eapply Permutation_trans; [|apply Permutation_map, Permutation_sym, sort_perm].
  rewrite (count_fold (concat results) (JsMap.empty, JsMap.empty) eq_refl) at 2.
  cbn [fst]. rewrite JsMapFacts.keys_fold, keys_accumulateAll.
  replace (map observedName (observations (combine artists results)))
    with (map similar_name (concat results))
    by (rewrite <- Os, map_map; reflexivity).
  rewrite !map_map.
  apply Permutation_refl'. apply map_ext_in. intros k I.
  apply JsMapFacts.fold_addKey_In in I. destruct I as [[]|I].
  assert (M : map snd (observationsOf k (combine artists results))
              = filter (fun s => String.eqb (similar_name s) k) (concat results)).
  { unfold observationsOf, observedName.
    rewrite (filter_map_snd (fun s => String.eqb (similar_name s) k)), Os. reflexivity. }
  destruct (filter (fun s => String.eqb (similar_name s) k) (concat results))
    as [|x r] eqn:Ef.
  - exfalso. apply in_map_iff in I. destruct I as [s [E I]].
    assert (I' : In s (filter (fun s => String.eqb (similar_name s) k) (concat results))).
    { apply filter_In. split; [exact I|]. apply String.eqb_eq, E. }
    rewrite Ef in I'. exact I'.
  - destruct (observationsOf k (combine artists results)) as [|o os] eqn:Eo;
      [discriminate M|].
    rewrite (legacy_entry _ _ _ _ Ef), (current_entry _ _ _ _ Eo).
    unfold candidateInfo. cbn [name frequency averageMatch].
    rewrite <- M, map_map, length_map. reflexivity.
Qed.

(** The two services, called on the same names at the same point, send the
    same requests and aggregate the same answers. *)
Lemma same_answers (lastfmApi : History -> string -> option (list (@SimilarArtist num)))
      (artistNames : list string) (h : History) :
  exists results,
    List.length results = List.length artistNames
    /\ Legacy.getSimilarArtistsForMultiple lastfmApi artistNames h
       = (h ++ map LastfmGetSimilar artistNames, Returned (Legacy.aggregate results))
    /\ getSimilarArtistsForMultiple lastfmApi (map SeedName artistNames) h
       = (h ++ map LastfmGetSimilar artistNames,
          Returned (aggregate
                      (combine (map (toWeighted (List.length (map (@SeedName num) artistNames)))
                                    (map SeedName artistNames))
                               results))).
Proof.
  set (artists := map (toWeighted (List.length (map (@SeedName num) artistNames)))
                      (map SeedName artistNames)).
  destruct (promiseAll_lookups lastfmApi (@wa_name num) artists h) as (results & E & L).
  assert (En : map wa_name artists = artistNames).
  { unfold artists. rewrite !map_map. cbn [toWeighted wa_name]. apply map_id. }
  rewrite (promiseAll_map (getSimilarArtists lastfmApi) (@wa_name num)), En in E.
  exists results. split; [|split].
  - rewrite L. unfold artists. rewrite !length_map. reflexivity.
  - unfold Legacy.getSimilarArtistsForMultiple, bind. rewrite E. reflexivity.
  - unfold getSimilarArtistsForMultiple, bind. fold artists.
    rewrite (promiseAll_map (getSimilarArtists lastfmApi) (@wa_name num)), En, E.
    reflexivity.
Qed.

Lemma sortInsert_map {A} (cmp : A -> A -> num) (f : A -> A) :
  (forall a b, num_gt0 (cmp (f a) (f b)) = num_gt0 (cmp a b)) ->
  forall x l, sortInsert cmp (f x) (map f l) = map f (sortInsert cmp x l).
Proof.
  intros C x l. induction l as [|y r IH]; simpl; [reflexivity|].
  rewrite C. destruct (num_gt0 (cmp x y)); simpl; [rewrite IH|]; reflexivity.
Qed.

(** Sorting commutes with a change of the elements that keeps every
    comparison's outcome. *)
Lemma sort_map {A} (cmp : A -> A -> num) (f : A -> A) :
  (forall a b, num_gt0 (cmp (f a) (f b)) = num_gt0 (cmp a b)) ->
  forall l, sort cmp (map f l) = map f (sort cmp l).
Proof.
  intros C l. induction l as [|x r IH]; simpl; [reflexivity|].
  rewrite IH. apply sortInsert_map, C.
Qed.
End LegacyFacts.

Section LegacyVersusCurrent.
Local Open Scope Qc_scope.

Lemma num_of_nat_nonneg (n : nat) : 0 <= num_of_nat (num:=Qc) n.
Proof.
  induction n as [|n IH]; [apply Qcle_refl|].
  rewrite ExactFacts.num_of_nat_S. rewrite <- (Qcplus_0_l 0).
  apply Qcplus_le_compat; [exact IH|]. unfold Qcle. simpl. discriminate.
Qed.

Lemma num_of_nat_pos (n : nat) : 0 < num_of_nat (num:=Qc) (S n).
Proof.
  rewrite ExactFacts.num_of_nat_S.
  apply (Qclt_le_trans _ 1); [reflexivity|].
  rewrite <- (Qcplus_0_l 1) at 1.
  apply Qcplus_le_compat; [apply num_of_nat_nonneg|apply Qcle_refl].
Qed.

Lemma gt0_scale (c d : Qc) : 0 < c -> num_gt0 (c * d) = num_gt0 d.
Proof.
  intros C. cbn [num_gt0 Exact.number]. change (Q2Qc 0) with 0.
  destruct (0 ?= d) eqn:E.
  - apply Qceq_alt in E. subst d. replace (c * 0) with 0 by ring. reflexivity.
  - apply Qclt_alt in E.
    assert (P : 0 < c * d).
    { replace 0 with (0 * c) by ring. rewrite (Qcmult_comm c d).
      apply Qcmult_lt_compat_r; assumption. }
    rewrite (proj1 (Qclt_alt _ _) P). reflexivity.
  - apply Qcgt_alt in E.
    assert (P : c * d < 0).
    { replace 0 with (0 * c) by ring. rewrite (Qcmult_comm c d).
      apply Qcmult_lt_compat_r; assumption. }
    rewrite (proj1 (Qcgt_alt 0 (c * d)) P). reflexivity.
Qed.

Lemma byCombinedScore_scale (c : Qc) (a b : @AggregatedArtist Qc) :
  0 < c ->
  num_gt0 (byCombinedScore (scaleScore c a) (scaleScore c b))
  = num_gt0 (byCombinedScore a b).
Proof.
  intros C. unfold byCombinedScore, scaleScore. cbn [combinedScore].
  rewrite <- (gt0_scale c (num_sub (combinedScore b) (combinedScore a)) C).
  f_equal. cbn [num_sub num_mul Exact.number]. ring.
Qed.

Lemma average_times_length (x : Qc) (r : list Qc) :
  num_mul (num_of_nat (List.length (x :: r))) (average (x :: r)) = num_sum (x :: r).
Proof.
  unfold average. cbn [num_mul num_div Exact.number].
  pose proof (num_of_nat_pos (List.length r)) as P.
  apply Qclt_not_eq, not_eq_sym in P.
  change (List.length (x :: r)) with (S (List.length r)).
  field. exact P.
Qed.

(** The two aggregations of the same answers, for [n + 1] seeds given by
    name: entry by entry and in the same order, the older score is [n + 1]
    times the current one. *)
Lemma legacy_aggregate_scaled (artistNames : list string)
      (results : list (list (@SimilarArtist Qc))) :
  List.length results = List.length artistNames ->
  Legacy.aggregate results
  = map (scaleScore (num_of_nat (List.length artistNames)))
        (aggregate (combine (map (toWeighted (List.length (map (@SeedName Qc) artistNames)))
                                 (map SeedName artistNames))
                            results)).
Proof.
  intros L. destruct artistNames as [|n0 ns].
  - destruct results; [reflexivity|discriminate L].
  - set (N := List.length (n0 :: ns)) in *.
    set (artists := map (toWeighted (List.length (map (@SeedName Qc) (n0 :: ns))))
                        (map SeedName (n0 :: ns))).
    set (c := num_div num_one (num_of_nat N) : Qc).
    assert (Npos : 0 < num_of_nat (num:=Qc) N) by apply num_of_nat_pos.
    assert (La : List.length results = List.length artists).
    { unfold artists. rewrite !length_map. exact L. }
    assert (W : Forall (fun a => wa_weight a = c) artists).
    { unfold artists. rewrite length_map. apply Forall_forall. intros a I.
      apply in_map_iff in I. destruct I as [s [<- I]].
      apply in_map_iff in I. destruct I as [nm [<- _]]. reflexivity. }
    pose proof (observations_combine artists results La) as Os.
    pose proof (observations_weights c artists W results) as Ow.
    unfold Legacy.aggregate, aggregate.
    rewrite <- (sort_map byCombinedScore _ (fun a b => byCombinedScore_scale _ a b Npos)).
    f_equal.
    rewrite (count_fold (concat results) (JsMap.empty, JsMap.empty) eq_refl) at 2.
    cbn [fst]. rewrite JsMapFacts.keys_fold, keys_accumulateAll.
    replace (map observedName (observations (combine artists results)))
      with (map similar_name (concat results))
      by (rewrite <- Os, map_map; reflexivity).
    rewrite map_map. apply map_ext_in. intros k I.
    apply JsMapFacts.fold_addKey_In in I. destruct I as [[]|I].
    assert (F : filter (fun s => String.eqb (similar_name s) k) (concat results) <> []).
    { apply in_map_iff in I. destruct I as [s [E I]]. intros Z.
      assert (I' : In s (filter (fun s => String.eqb (similar_name s) k) (concat results))).
      { apply filter_In. split; [exact I|]. apply String.eqb_eq, E. }
      rewrite Z in I'. exact I'. }
    assert (M : map snd (observationsOf k (combine artists results))
                = filter (fun s => String.eqb (similar_name s) k) (concat results)).
    { unfold observationsOf, observedName.
      rewrite (filter_map_snd (fun s => String.eqb (similar_name s) k)), Os. reflexivity. }
    assert (Wk : Forall (fun o => wa_weight (fst o) = c)
                        (observationsOf k (combine artists results))).
    { apply Forall_forall. intros o Io. apply filter_In in Io.
      rewrite Forall_forall in Ow. apply Ow, Io. }
    destruct (filter (fun s => String.eqb (similar_name s) k) (concat results))
      as [|x r] eqn:Ef; [congruence|].
    destruct (observationsOf k (combine artists results)) as [|o os] eqn:Eo;
      [discriminate M|].
    rewrite (legacy_entry _ _ _ _ Ef), (current_entry _ _ _ _ Eo).
    unfold scaleScore. cbn [name frequency averageMatch combinedScore].
    assert (Em : map (fun o => similar_match (snd o)) (o :: os)
                 = map similar_match (x :: r)).
    { rewrite <- M, map_map. reflexivity. }
    assert (El : List.length (o :: os) = List.length (x :: r)).
    { rewrite <- M, length_map. reflexivity. }
    rewrite Em, El. f_equal.
    replace (List.length (x :: r)) with (List.length (map similar_match (x :: r)))
      by apply length_map.
    cbn [map]. rewrite average_times_length.
    change (similar_match x :: map similar_match r) with (map similar_match (x :: r)).
    change (@weightedScore Qc Exact.number o :: map (@weightedScore Qc Exact.number) os)
      with (map (@weightedScore Qc Exact.number) (o :: os)).
    replace (map (@weightedScore Qc Exact.number) (o :: os))
      with (map (fun m => m * c) (map similar_match (x :: r))).
    + rewrite ExactFacts.num_sum_scaled. unfold c. cbn [num_mul num_div num_one Exact.number].
      change (Q2Qc 1) with 1. field. apply not_eq_sym, Qclt_not_eq, Npos.
    + rewrite <- Em, map_map. apply map_ext_in. intros o' Io'.
      rewrite Forall_forall in Wk. unfold weightedScore. rewrite (Wk o' Io'). reflexivity.
Qed.

(** In exact arithmetic the older result is the current one with every
    score multiplied by the number of seeds. *)
Lemma legacy_scaled_exact
      (lastfmApi : History -> string -> option (list (@SimilarArtist Qc)))
      (artistNames : list string) (h : History) :
  exists h' legacy current,
    Legacy.getSimilarArtistsForMultiple lastfmApi artistNames h = (h', Returned legacy)
    /\ getSimilarArtistsForMultiple lastfmApi (map SeedName artistNames) h
       = (h', Returned current)
    /\ legacy = map (scaleScore (num_of_nat (List.length artistNames))) current
    /\ map name legacy = map name current.
Proof.
  destruct (same_answers lastfmApi artistNames h) as (results & L & E1 & E2).
  eexists. eexists. eexists. split; [exact E1|]. split; [exact E2|]. split.
  - apply legacy_aggregate_scaled, L.
  - rewrite (legacy_aggregate_scaled artistNames results L), map_map. reflexivity.
Qed.
End LegacyVersusCurrent.

(** C10, as the code has it.  For the same answers to the lookups of N seed
    names, the older service and the current one (given the names as strings,
    so with weight 1/N each) return the same candidates with the same
    frequencies and averages, whatever the arithmetic.  In exact arithmetic
    every older [combinedScore] is N times the current one, and the two
    results are in the same order. *)
Theorem legacy_and_current_aggregation :
  (forall (num : Type) (H : JsNumber num)
          (lastfmApi : History -> string -> option (list (@SimilarArtist num)))
          (artistNames : list string) (h : History),
      exists h' legacy current,
        Legacy.getSimilarArtistsForMultiple lastfmApi artistNames h = (h', Returned legacy)
        /\ getSimilarArtistsForMultiple lastfmApi (map SeedName artistNames) h
           = (h', Returned current)
        /\ Permutation (map candidateInfo legacy) (map candidateInfo current))
  /\ (forall (lastfmApi : History -> string -> option (list (@SimilarArtist Qc)))
             (artistNames : list string) (h : History),
         exists h' legacy current,
           Legacy.getSimilarArtistsForMultiple lastfmApi artistNames h = (h', Returned legacy)
           /\ getSimilarArtistsForMultiple lastfmApi (map SeedName artistNames) h
              = (h', Returned current)
           /\ legacy = map (scaleScore (num_of_nat (List.length artistNames))) current
           /\ map name legacy = map name current).
Proof.
  split.
  - intros num H lastfmApi artistNames h.
    destruct (same_answers lastfmApi artistNames h) as (results & L & E1 & E2).
    eexists. eexists. eexists. split; [exact E1|]. split; [exact E2|].
    apply same_candidates. rewrite !length_map. exact L.
  - apply legacy_scaled_exact.
Qed.

(** C10, as it is stated, fails on doubles.  Three seeds; Y is returned for
    the first with match 0.08, X for the other two with 0.01 and 0.07.  The
    older scores tie at 0.08 and Y, met first, stays first; the current scores
    are 0.026666666666666668 for X and 0.026666666666666665 for Y, and X is
    first. *)
Lemma rounding_changes_the_ranking :
  map name (Examples.returned
              (Legacy.getSimilarArtistsForMultiple Examples.lastfmXY ["A"; "B"; "C"] []))
  = ["Y"; "X"]
  /\ map name (Examples.returned
                 (getSimilarArtistsForMultiple Examples.lastfmXY
                    (map SeedName ["A"; "B"; "C"]) []))
     = ["X"; "Y"]
  /\ map name (Examples.returned
                 (Legacy.getSimilarArtistsForMultiple Examples.lastfmXY ["A"; "B"; "C"] []))
     <> map name (Examples.returned
                    (getSimilarArtistsForMultiple Examples.lastfmXY
                       (map SeedName ["A"; "B"; "C"]) [])).
Proof.
  split; [vm_compute; reflexivity|]. split; [vm_compute; reflexivity|].
  vm_compute. discriminate.
Qed.

(* ================================================================== *)
(** ** Playlist ids *)

Module PlaylistIdFacts.
Import SpotifyService.

Lemma append_nil_r (s : string) : (s ++ "")%string = s.
Proof. induction s as [|c r IH]; simpl; [|rewrite IH]; reflexivity. Qed.

Lemma allAlnum_app (a b : string) : allAlnum (a ++ b) = allAlnum a && allAlnum b.
Proof.
  induction a as [|c r IH]; simpl; [reflexivity|].
  rewrite IH. apply andb_assoc.
Qed.

Lemma stripPrefix_app (literal s rest : string) :
  stripPrefix literal s = Some rest -> s = (literal ++ rest)%string.
Proof.
  revert s. induction literal as [|a p IH]; intros s E; simpl in *.
  - inversion E. reflexivity.
  - destruct s as [|b r]; [discriminate E|].
    destruct (Ascii.eqb a b) eqn:Eab; [|discriminate E].
    apply Ascii.eqb_eq in Eab. subst b. rewrite (IH r E). reflexivity.
Qed.

Lemma takeAlnum_allAlnum (s : string) : allAlnum (takeAlnum s) = true.
Proof.
  induction s as [|c r IH]; simpl; [reflexivity|].
  destruct (isAlnum c) eqn:E; simpl; [rewrite E, IH|]; reflexivity.
Qed.

Lemma takeAlnum_app (id rest : string) :
  allAlnum id = true -> endsGroup rest = true -> takeAlnum (id ++ rest) = id.
Proof.
  intros A R. induction id as [|c r IH]; simpl in *.
  - destruct rest as [|c r]; [reflexivity|]. simpl in *.
    apply negb_true_iff in R. rewrite R. reflexivity.
  - apply andb_true_iff in A. destruct A as [Ac Ar]. rewrite Ac, (IH Ar). reflexivity.
Qed.

(** A matched group is a non-empty run of [[a-zA-Z0-9]]. *)
Lemma matchPattern_group (literal s group : string) :
  matchPattern literal s = Some group -> allAlnum group = true /\ group <> "".
Proof.
  induction s as [|c r IH]; simpl; unfold matchHere.
  - destruct (stripPrefix literal "") as [rest|]; [|discriminate].
    pose proof (takeAlnum_allAlnum rest) as A.
    destruct (takeAlnum rest); [discriminate|].
    intros E. inversion E; subst. split; [exact A|discriminate].
  - destruct (stripPrefix literal (String c r)) as [rest|].
    + pose proof (takeAlnum_allAlnum rest) as A.
      destruct (takeAlnum rest); [exact IH|].
      intros E. inversion E; subst. split; [exact A|discriminate].
    + exact IH.
Qed.

(** A pattern whose literal part holds a character outside [[a-zA-Z0-9]]
    matches nowhere in a string made of such characters. *)
Lemma matchPattern_alnum (literal s : string) :
  allAlnum literal = false -> allAlnum s = true -> matchPattern literal s = None.
Proof.
  intros L. induction s as [|c r IH]; intros A; simpl; unfold matchHere.
  - destruct (stripPrefix literal "") as [rest|] eqn:E; [|reflexivity].
    apply stripPrefix_app in E. apply (f_equal allAlnum) in E.
    rewrite allAlnum_app, L in E. discriminate E.
  - destruct (stripPrefix literal (String c r)) as [rest|] eqn:E.
    + apply stripPrefix_app in E. apply (f_equal allAlnum) in E.
      rewrite allAlnum_app, L, A in E. discriminate E.
    + apply IH. simpl in A. apply andb_true_iff in A. apply A.
Qed.

Lemma matchPattern_skip (literal : string) (c : ascii) (s : string) :
  matchHere literal (String c s) = None ->
  matchPattern literal (String c s) = matchPattern literal s.
Proof. intros E. simpl. rewrite E. reflexivity. Qed.

Lemma matchPattern_here (literal s rest id : string) :
  stripPrefix literal s = Some (id ++ rest)%string ->
  allAlnum id = true -> id <> "" -> endsGroup rest = true ->
  matchPattern literal s = Some id.
Proof.
  intros E A N R.
  assert (M : matchHere literal s = Some id).
  { unfold matchHere. rewrite E, (takeAlnum_app id rest A R).
    destruct id; [congruence|reflexivity]. }
  destruct s; simpl; rewrite M; reflexivity.
Qed.

Lemma extract_alnum (id : string) : allAlnum id = true -> extractPlaylistId id = id.
Proof.
  intros A. unfold extractPlaylistId.
  rewrite !matchPattern_alnum by (reflexivity || exact A). reflexivity.
Qed.
Lemma extract_url_form (id rest : string) :
  allAlnum id = true -> id <> "" -> endsGroup rest = true ->
  extractPlaylistId ("https://open.spotify.com/playlist/" ++ id ++ rest) = id.
Proof.
  intros A N R. unfold extractPlaylistId. cbn [append].
  repeat (rewrite matchPattern_skip by reflexivity).
  rewrite (matchPattern_here "playlist/" _ rest id); auto.
Qed.

Lemma extract_uri_form (id : string) :
  allAlnum id = true -> id <> "" ->
  extractPlaylistId ("spotify:playlist:" ++ id) = id.
Proof.
  intros A N. unfold extractPlaylistId. cbn [append].
  repeat (rewrite (matchPattern_skip "playlist/") by reflexivity).
  rewrite (matchPattern_alnum "playlist/" id) by (reflexivity || exact A).
  repeat (rewrite (matchPattern_skip "playlist:") by reflexivity).
  rewrite (matchPattern_here "playlist:" _ "" id); auto.
  simpl. rewrite append_nil_r. reflexivity.
Qed.
End PlaylistIdFacts.

(** X1.  [extractPlaylistId] is idempotent: what it returns is either a
    non-empty run of letters and digits or the input itself, and it returns
    its own result unchanged. *)
Theorem extractPlaylistId_idempotent (playlistUrl : string) :
  SpotifyService.extractPlaylistId (SpotifyService.extractPlaylistId playlistUrl)
  = SpotifyService.extractPlaylistId playlistUrl
  /\ (SpotifyService.extractPlaylistId playlistUrl = playlistUrl
      \/ (SpotifyService.allAlnum (SpotifyService.extractPlaylistId playlistUrl) = true
          /\ SpotifyService.extractPlaylistId playlistUrl <> "")).
Proof.
  unfold SpotifyService.extractPlaylistId at 2 3 4 5 6.
  destruct (SpotifyService.matchPattern "playlist/" playlistUrl) as [g|] eqn:E1.
  - apply PlaylistIdFacts.matchPattern_group in E1. destruct E1 as [A N].
    split; [apply PlaylistIdFacts.extract_alnum, A|right; split; assumption].
  - destruct (SpotifyService.matchPattern "playlist:" playlistUrl) as [g|] eqn:E2.
    + apply PlaylistIdFacts.matchPattern_group in E2. destruct E2 as [A N].
      split; [apply PlaylistIdFacts.extract_alnum, A|right; split; assumption].
    + split; [|left; reflexivity].
      unfold SpotifyService.extractPlaylistId. rewrite E1, E2. reflexivity.
Qed.

(** X2.  The three formats the service documents give the id back: for every
    non-empty id of letters and digits, the url
    [https://open.spotify.com/playlist/<id>], also when a query string or
    anything else that starts outside [[a-zA-Z0-9]] follows, the uri
    [spotify:playlist:<id>], and the bare id. *)
Theorem extractPlaylistId_formats (id rest : string) :
  SpotifyService.allAlnum id = true ->
  id <> "" ->
  SpotifyService.endsGroup rest = true ->
  SpotifyService.extractPlaylistId ("https://open.spotify.com/playlist/" ++ id ++ rest) = id
  /\ SpotifyService.extractPlaylistId ("spotify:playlist:" ++ id) = id
  /\ SpotifyService.extractPlaylistId id = id.
Proof.
  intros A N R. split; [|split].
  - apply PlaylistIdFacts.extract_url_form; assumption.
  - apply PlaylistIdFacts.extract_uri_form; assumption.
  - apply PlaylistIdFacts.extract_alnum, A.
Qed.

(** Witness of X2: the id of the service's own example, with a query string. *)
Lemma extractPlaylistId_formats_witness :
  SpotifyService.extractPlaylistId
    "https://open.spotify.com/playlist/37i9dQZF1DXcBWIGoYBM5M?si=0a1b"
  = "37i9dQZF1DXcBWIGoYBM5M"
  /\ SpotifyService.extractPlaylistId "spotify:playlist:37i9dQZF1DXcBWIGoYBM5M"
     = "37i9dQZF1DXcBWIGoYBM5M"
  /\ SpotifyService.extractPlaylistId "37i9dQZF1DXcBWIGoYBM5M" = "37i9dQZF1DXcBWIGoYBM5M".
Proof.
  apply (extractPlaylistId_formats "37i9dQZF1DXcBWIGoYBM5M" "?si=0a1b").
  - reflexivity.
  - discriminate.
  - reflexivity.
Defined.

(* ================================================================== *)
(** ** The access token *)

Section TokenFacts.
Import SpotifyService.

(** X3.  A token that was just fetched is reused, without a request, by
    every call made before [arrival + (expires_in - 300) * 1000], and is
    fetched again by a call made at or after that time: the service refreshes
    five minutes before the token expires. *)
Theorem token_is_reused_until_five_minutes_before_expiry
        (response : TokenResponse) (tokenApi : option TokenResponse)
        (now arrival now' arrival' : Z) (st : State) :
  cachedToken now st = None ->
  access_token response <> "" ->
  (arrival + (expires_in response - 300) * 1000 <> 0)%Z ->
  exists st1,
    getAccessToken (Some response) now arrival st
    = (st1, [TokenRequest], Returned (access_token response))
    /\ ((now' < arrival + (expires_in response - 300) * 1000)%Z ->
        getAccessToken tokenApi now' arrival' st1
        = (st1, [], Returned (access_token response)))
    /\ ((arrival + (expires_in response - 300) * 1000 <= now')%Z ->
        snd (fst (getAccessToken tokenApi now' arrival' st1)) = [TokenRequest]).
Proof.
  intros C N E. unfold getAccessToken at 1. rewrite C.
  eexists. split; [reflexivity|]. split; intros T.
  - unfold getAccessToken, cachedToken. cbn [accessToken tokenExpiry].
    apply String.eqb_neq in N. apply Z.eqb_neq in E. apply Z.ltb_lt in T.
    rewrite N, E, T. reflexivity.
  - unfold getAccessToken, cachedToken. cbn [accessToken tokenExpiry].
    apply Z.ltb_ge in T. rewrite T, !andb_false_r.
    destruct tokenApi; reflexivity.
Qed.

(** Witness of X3: a token of 3600 seconds that arrives at time 1200 is
    reused at time 3301199. *)
Lemma token_is_reused_until_five_minutes_before_expiry_witness :
  exists st1,
    getAccessToken (Some MoreExamples.tokenResponse) 1000 1200 initial
    = (st1, [TokenRequest], Returned "BQDtoken")
    /\ ((3301199 < 1200 + (3600 - 300) * 1000)%Z ->
        getAccessToken None 3301199 3301300 st1 = (st1, [], Returned "BQDtoken"))
    /\ ((1200 + (3600 - 300) * 1000 <= 3301199)%Z ->
        snd (fst (getAccessToken None 3301199 3301300 st1)) = [TokenRequest]).
Proof.
  apply (token_is_reused_until_five_minutes_before_expiry
           MoreExamples.tokenResponse None 1000 1200 3301199 3301300 initial).
  - reflexivity.
  - discriminate.
  - discriminate.
Defined.

(** X4.  Whatever goes wrong in [getPlaylistTracks], the error it throws
    says "Failed to fetch playlist from Spotify".  When it is the token
    request that failed, no tracks request was sent and the state is as it
    was; otherwise the last request sent is the tracks request for the id
    extracted from the url. *)
Theorem getPlaylistTracks_failure
        (tokenApi : option TokenResponse) (tracksApi : string -> string -> option (list Track))
        (now arrival : Z) (playlistUrl : string) (st st' : State)
        (requests : list Request) (message : string) :
  getPlaylistTracks tokenApi tracksApi now arrival playlistUrl st
  = (st', requests, Thrown message) ->
  message = "Failed to fetch playlist from Spotify"
  /\ ((tokenApi = None /\ cachedToken now st = None
       /\ requests = [TokenRequest] /\ st' = st)
      \/ (exists token sent,
            requests = sent ++ [TracksRequest (extractPlaylistId playlistUrl) token]
            /\ tracksApi (extractPlaylistId playlistUrl) token = None)).
Proof.
  unfold getPlaylistTracks, getAccessToken.
  destruct (cachedToken now st) as [token|] eqn:C.
  - destruct (tracksApi (extractPlaylistId playlistUrl) token) eqn:T; intros E;
      inversion E; subst.
    split; [reflexivity|]. right. exists token, []. split; [reflexivity|exact T].
  - destruct tokenApi as [response|].
    + destruct (tracksApi (extractPlaylistId playlistUrl) (access_token response)) eqn:T;
        intros E; inversion E; subst.
      split; [reflexivity|]. right. exists (access_token response), [TokenRequest].
      split; [reflexivity|exact T].
    + intros E. inversion E; subst. split; [reflexivity|]. left. repeat split.
Qed.

(** Witness of X4: no token is cached and the token request fails. *)
Lemma getPlaylistTracks_failure_witness :
  getPlaylistTracks None MoreExamples.tracksApi 1000 1200 "37i9dQZF1DXcBWIGoYBM5M" initial
  = (initial, [TokenRequest], Thrown "Failed to fetch playlist from Spotify")
  /\ "Failed to fetch playlist from Spotify" = "Failed to fetch playlist from Spotify"
  /\ ((@None TokenResponse = None /\ cachedToken 1000 initial = None
       /\ [TokenRequest] = [TokenRequest] /\ initial = initial)
      \/ (exists token sent,
            [TokenRequest]
            = sent ++ [TracksRequest (extractPlaylistId "37i9dQZF1DXcBWIGoYBM5M") token]
            /\ MoreExamples.tracksApi (extractPlaylistId "37i9dQZF1DXcBWIGoYBM5M") token
               = None)).
Proof.
  split; [reflexivity|].
  apply (getPlaylistTracks_failure None MoreExamples.tracksApi 1000 1200
           "37i9dQZF1DXcBWIGoYBM5M" initial initial [TokenRequest]).
  reflexivity.
Defined.

(** X5.  The url, the uri and the bare id of a playlist are interchangeable:
    for every non-empty id of letters and digits, [getPlaylistTracks] sends
    the same requests and gives the same result for all three. *)
Theorem getPlaylistTracks_same_for_all_formats
        (tokenApi : option TokenResponse) (tracksApi : string -> string -> option (list Track))
        (now arrival : Z) (st : State) (id rest : string) :
  allAlnum id = true ->
  id <> "" ->
  endsGroup rest = true ->
  getPlaylistTracks tokenApi tracksApi now arrival
    ("https://open.spotify.com/playlist/" ++ id ++ rest) st
  = getPlaylistTracks tokenApi tracksApi now arrival id st
  /\ getPlaylistTracks tokenApi tracksApi now arrival ("spotify:playlist:" ++ id) st
     = getPlaylistTracks tokenApi tracksApi now arrival id st.
Proof.
  intros A N R. unfold getPlaylistTracks.
  rewrite (PlaylistIdFacts.extract_url_form id rest A N R),
    (PlaylistIdFacts.extract_uri_form id A N), (PlaylistIdFacts.extract_alnum id A).
  split; reflexivity.
Qed.

(** Witness of X5: the service's own example. *)
Lemma getPlaylistTracks_same_for_all_formats_witness :
  getPlaylistTracks (Some MoreExamples.tokenResponse) MoreExamples.tracksApi 1000 1200
    "https://open.spotify.com/playlist/37i9dQZF1DXcBWIGoYBM5M?si=0a1b" initial
  = getPlaylistTracks (Some MoreExamples.tokenResponse) MoreExamples.tracksApi 1000 1200
      "37i9dQZF1DXcBWIGoYBM5M" initial
  /\ getPlaylistTracks (Some MoreExamples.tokenResponse) MoreExamples.tracksApi 1000 1200
       "spotify:playlist:37i9dQZF1DXcBWIGoYBM5M" initial
     = getPlaylistTracks (Some MoreExamples.tokenResponse) MoreExamples.tracksApi 1000 1200
         "37i9dQZF1DXcBWIGoYBM5M" initial.
Proof.
  apply (getPlaylistTracks_same_for_all_formats (Some MoreExamples.tokenResponse)
           MoreExamples.tracksApi 1000 1200 initial "37i9dQZF1DXcBWIGoYBM5M" "?si=0a1b").
  - reflexivity.
  - discriminate.
  - reflexivity.
Defined.
End TokenFacts.

(* ================================================================== *)
(** ** Requests and failures *)

Lemma filter_isLookup_spotify (urls : list string) :
  filter isLookup (map SpotifyPlaylistTracks urls) = [].
Proof. induction urls as [|u l IH]; simpl; [reflexivity|exact IH]. Qed.

Section RequestFacts.
Context {num : Type} `{JsNumber num}.
Context `{JsString}.
Variable spotifyApi : History -> string -> option (list Track).
Variable lastfmApi : History -> string -> option (list (@SimilarArtist num)).

Lemma promiseAll_answers (api : History -> string -> option (list (@SimilarArtist num)))
      (names : list string) : forall h,
  promiseAll (getSimilarArtists api) names h
  = (h ++ map LastfmGetSimilar names, Returned (answers api names h)).
Proof.
  induction names as [|nm r IH]; intros h; simpl.
  - unfold ret. rewrite app_nil_r. reflexivity.
  - unfold bind at 1. unfold getSimilarArtists at 1. unfold bind at 1.
    rewrite IH. unfold ret. rewrite <- app_assoc. reflexivity.
Qed.

Lemma answers_orEmpty (api : History -> string -> option (list (@SimilarArtist num)))
      (names : list string) : forall h,
  answers (orEmpty api) names h = answers api names h.
Proof.
  induction names as [|nm r IH]; intros h; simpl; [reflexivity|].
  rewrite IH. reflexivity.
Qed.

Lemma getSimilarArtistsForMultiple_answers
      (api : History -> string -> option (list (@SimilarArtist num)))
      (args : list (@SeedArg num)) (h : History) :
  getSimilarArtistsForMultiple api args h
  = (h ++ map LastfmGetSimilar (map wa_name (map (toWeighted (List.length args)) args)),
     Returned
       (aggregate
          (combine (map (toWeighted (List.length args)) args)
                   (answers api (map wa_name (map (toWeighted (List.length args)) args)) h)))).
Proof.
  unfold getSimilarArtistsForMultiple, bind.
  rewrite (promiseAll_map (getSimilarArtists api) (@wa_name num)), promiseAll_answers.
  reflexivity.
Qed.

Lemma getPlaylistArtists_run url h :
  getPlaylistArtists spotifyApi url h
  = (h ++ [SpotifyPlaylistTracks url],
     match spotifyApi h url with
     | Some tracks => Returned (uniqueArtistsOf tracks)
     | None => Thrown "Failed to fetch playlist from Spotify"
     end).
Proof.
  unfold getPlaylistArtists, bind, getPlaylistTracks, ret, throw.
  destruct (spotifyApi h url); reflexivity.
Qed.

Lemma urls_normalized (playlists : list (@PlaylistArg num)) :
  map playlist_url (normalizeWeights (withWeights playlists)) = map urlOf playlists.
Proof.
  unfold normalizeWeights, withWeights. rewrite !map_map.
  apply map_ext. intros [url|p]; reflexivity.
Qed.

Lemma forOf_cons {A St} (body : St -> A -> Async St) (x : A) (r : list A) (acc : St) h :
  forOf body (x :: r) acc h
  = match body acc x h with
    | (h1, Returned acc') => forOf body r acc' h1
    | (h1, Thrown e) => (h1, Thrown e)
    end.
Proof. reflexivity. Qed.

Lemma fetch_round {St} (url : string) (next : list Artist -> St) h :
  (await artists <- getPlaylistArtists spotifyApi url ;; ret (next artists)) h
  = (h ++ [SpotifyPlaylistTracks url],
     match spotifyApi h url with
     | Some tracks => Returned (next (uniqueArtistsOf tracks))
     | None => Thrown "Failed to fetch playlist from Spotify"
     end).
Proof.
  unfold bind. rewrite getPlaylistArtists_run.
  destruct (spotifyApi h url); reflexivity.
Qed.

(** A loop that fetches one playlist per round either stops at the first
    playlist that Spotify fails on, or fetches them all. *)
Lemma forOf_playlists {St X} (urlOfX : X -> string) (step : St -> X -> list Artist -> St)
      (xs : list X) : forall (acc : St) h,
  (exists n,
      n < List.length xs
      /\ spotifyApi (h ++ map SpotifyPlaylistTracks (firstn n (map urlOfX xs)))
                    (nth n (map urlOfX xs) "") = None
      /\ forOf (fun acc x =>
                  await artists <- getPlaylistArtists spotifyApi (urlOfX x) ;;
                  ret (step acc x artists))
               xs acc h
         = (h ++ map SpotifyPlaylistTracks (firstn (S n) (map urlOfX xs)),
            Thrown "Failed to fetch playlist from Spotify"))
  \/ (exists final,
         forOf (fun acc x =>
                  await artists <- getPlaylistArtists spotifyApi (urlOfX x) ;;
                  ret (step acc x artists))
               xs acc h
         = (h ++ map SpotifyPlaylistTracks (map urlOfX xs), Returned final)).
Proof.
  induction xs as [|x r IH]; intros acc h.
  - right. exists acc. simpl. unfold ret. rewrite app_nil_r. reflexivity.
  - rewrite forOf_cons, fetch_round.
    destruct (spotifyApi h (urlOfX x)) as [tracks|] eqn:E.
    + destruct (IH (step acc x (uniqueArtistsOf tracks)) (h ++ [SpotifyPlaylistTracks (urlOfX x)]))
        as [(n & L & F & R)|(final & R)].
      * left. exists (S n). split; [simpl; lia|]. split.
        -- simpl. rewrite <- app_assoc in F. exact F.
        -- rewrite R. simpl. rewrite <- app_assoc. reflexivity.
      * right. exists final. rewrite R. simpl. rewrite <- app_assoc. reflexivity.
    + left. exists 0. split; [simpl; lia|]. split.
      * simpl. rewrite app_nil_r. exact E.
      * reflexivity.
Qed.

(** The two ways a run of [getRecommendationsFromMultiple] can end. *)
Lemma getRecommendationsFromMultiple_outcome (playlists : list (@PlaylistArg num))
      (options : Options) (h : History) :
  (exists n,
      n < List.length playlists
      /\ spotifyApi (h ++ map SpotifyPlaylistTracks (firstn n (map urlOf playlists)))
                    (nth n (map urlOf playlists) "") = None
      /\ getRecommendationsFromMultiple spotifyApi lastfmApi playlists options h
         = (h ++ map SpotifyPlaylistTracks (firstn (S n) (map urlOf playlists)),
            Thrown "Failed to fetch playlist from Spotify"))
  \/ (exists r,
         getRecommendationsFromMultiple spotifyApi lastfmApi playlists options h
         = ((h ++ map SpotifyPlaylistTracks (map urlOf playlists))
              ++ map LastfmGetSimilar (map artist_name (m_seedArtists r)),
            Returned r)).
Proof.
  unfold getRecommendationsFromMultiple, collectSeeds.
  destruct (forOf_playlists (@playlist_url num)
              (fun m p artists => fold_left (addSeed (playlist_weight p)) artists m)
              (normalizeWeights (withWeights playlists)) JsMap.empty h)
    as [(n & L & F & R)|(seeds & R)].
  - left. exists n. rewrite urls_normalized in *.
    split; [unfold normalizeWeights, withWeights in L; rewrite !length_map in L; exact L|].
    split; [exact F|]. unfold bind at 1. rewrite R. reflexivity.
  - right. rewrite urls_normalized in R. unfold bind at 1. rewrite R.
    unfold bind at 1. rewrite getSimilarArtistsForMultiple_answers.
    eexists. unfold ret. f_equal. f_equal. cbn [m_seedArtists].
    unfold weightedArtistsOf. rewrite !map_map. reflexivity.
Qed.

(** X6.  The fan-out never throws.  It sends one lookup per element of its
    argument, in order, and returns the aggregation of the answers, a failed
    lookup counting as an empty answer: a Last.fm that fails and a Last.fm
    that answers with an empty list in its place give the same result. *)
Theorem fanout_absorbs_lookup_failures (args : list (@SeedArg num)) (h : History) :
  getSimilarArtistsForMultiple lastfmApi args h
  = (h ++ map LastfmGetSimilar (map wa_name (map (toWeighted (List.length args)) args)),
     Returned
       (aggregate
          (combine (map (toWeighted (List.length args)) args)
                   (answers lastfmApi
                            (map wa_name (map (toWeighted (List.length args)) args)) h))))
  /\ getSimilarArtistsForMultiple (orEmpty lastfmApi) args h
     = getSimilarArtistsForMultiple lastfmApi args h.
Proof.
  split; [apply getSimilarArtistsForMultiple_answers|].
  rewrite !getSimilarArtistsForMultiple_answers, answers_orEmpty. reflexivity.
Qed.

(** X7.  [getRecommendationsFromMultiple] fails fast.  When it throws, the
    error is Spotify's "Failed to fetch playlist from Spotify", caused by the
    first playlist Spotify failed on: the playlists before it were fetched,
    the ones after it were not, and no similarity lookup was sent. *)
Theorem multi_engine_fails_on_first_unresolved_playlist
        (playlists : list (@PlaylistArg num)) (options : Options)
        (h h' : History) (message : string) :
  getRecommendationsFromMultiple spotifyApi lastfmApi playlists options h
  = (h', Thrown message) ->
  message = "Failed to fetch playlist from Spotify"
  /\ lookupCount h' = lookupCount h
  /\ exists n,
       n < List.length playlists
       /\ h' = h ++ map SpotifyPlaylistTracks (firstn (S n) (map urlOf playlists))
       /\ spotifyApi (h ++ map SpotifyPlaylistTracks (firstn n (map urlOf playlists)))
                     (nth n (map urlOf playlists) "") = None.
Proof.
  intros E.
  destruct (getRecommendationsFromMultiple_outcome playlists options h)
    as [(n & L & F & R)|(r & R)]; rewrite R in E; [|discriminate E].
  inversion E; subst. split; [reflexivity|]. split.
  - unfold lookupCount. rewrite filter_app, filter_isLookup_spotify, app_nil_r. reflexivity.
  - exists n. repeat split; assumption.
Qed.

(** X8.  When Spotify resolves every playlist of the request,
    [getRecommendationsFromMultiple] returns, whatever Last.fm does: it has
    fetched every playlist in order, and then looked up every seed artist. *)
Theorem multi_engine_returns_when_playlists_resolve
        (playlists : list (@PlaylistArg num)) (options : Options) (h : History) :
  (forall h0 url, In url (map urlOf playlists) -> spotifyApi h0 url <> None) ->
  exists r,
    getRecommendationsFromMultiple spotifyApi lastfmApi playlists options h
    = ((h ++ map SpotifyPlaylistTracks (map urlOf playlists))
         ++ map LastfmGetSimilar (map artist_name (m_seedArtists r)),
       Returned r).
Proof.
  intros R.
  destruct (getRecommendationsFromMultiple_outcome playlists options h)
    as [(n & L & F & _)|E]; [|exact E].
  exfalso. apply (R _ _ (nth_In _ _ ltac:(rewrite length_map; exact L)) F).
Qed.
End RequestFacts.

(** Witness of X7: the second playlist of the request is unknown to Spotify;
    the third one is never fetched. *)
Lemma multi_engine_fails_on_first_unresolved_playlist_witness :
  getRecommendationsFromMultiple Examples.spotify Examples.lastfm
    MoreExamples.withUnknown Examples.noOptions []
  = ([SpotifyPlaylistTracks "mellow"; SpotifyPlaylistTracks "nowhere"],
     Thrown "Failed to fetch playlist from Spotify")
  /\ lookupCount [SpotifyPlaylistTracks "mellow"; SpotifyPlaylistTracks "nowhere"]
     = lookupCount []
  /\ exists n,
       n < List.length MoreExamples.withUnknown
       /\ [SpotifyPlaylistTracks "mellow"; SpotifyPlaylistTracks "nowhere"]
          = [] ++ map SpotifyPlaylistTracks
                      (firstn (S n) (map urlOf MoreExamples.withUnknown))
       /\ Examples.spotify
            ([] ++ map SpotifyPlaylistTracks (firstn n (map urlOf MoreExamples.withUnknown)))
            (nth n (map urlOf MoreExamples.withUnknown) "") = None.
Proof.
  split; [vm_compute; reflexivity|].
  refine (proj2 (multi_engine_fails_on_first_unresolved_playlist
                   Examples.spotify Examples.lastfm MoreExamples.withUnknown
                   Examples.noOptions [] _ _ _)).
  vm_compute. reflexivity.
Defined.

(** Witness of X8: Spotify knows both playlists of the request. *)
Lemma multi_engine_returns_when_playlists_resolve_witness :
  exists r,
    getRecommendationsFromMultiple Examples.spotify Examples.lastfm
      Examples.twoPlaylists Examples.noOptions []
    = (([] ++ map SpotifyPlaylistTracks (map urlOf Examples.twoPlaylists))
         ++ map LastfmGetSimilar (map artist_name (m_seedArtists r)),
       Returned r).
Proof.
  apply (multi_engine_returns_when_playlists_resolve Examples.spotify Examples.lastfm
           Examples.twoPlaylists Examples.noOptions []).
  intros h0 url [<-|[<-|[]]]; discriminate.
Defined.

(* ================================================================== *)
(** ** The routes *)

Section RouteFacts.
Context {num : Type} `{JsNumber num}.
Context `{JsString}.
Variable spotifyApi : History -> string -> option (list Track).
Variable lastfmApi : History -> string -> option (list (@SimilarArtist num)).

Lemma getRecommendations_run (playlistUrl : string) (options : Options) (h : History) :
  match spotifyApi h playlistUrl with
  | None =>
      getRecommendations spotifyApi lastfmApi playlistUrl options h
      = (h ++ [SpotifyPlaylistTracks playlistUrl],
         Thrown "Failed to fetch playlist from Spotify")
  | Some tracks =>
      exists r,
        seedArtists r = uniqueArtistsOf tracks
        /\ getRecommendations spotifyApi lastfmApi playlistUrl options h
           = ((h ++ [SpotifyPlaylistTracks playlistUrl])
                ++ map LastfmGetSimilar (map artist_name (uniqueArtistsOf tracks)),
              Returned r)
  end.
Proof.
  destruct (spotifyApi h playlistUrl) as [tracks|] eqn:E;
    unfold getRecommendations; unfold bind at 1; rewrite getPlaylistArtists_run, E;
    [|reflexivity].
  unfold bind at 1. rewrite getSimilarArtistsForMultiple_answers.
  eexists. split; [|unfold ret; f_equal; f_equal; rewrite !map_map; reflexivity].
  reflexivity.
Qed.

(** X9.  [POST /recommendations] always answers.  Without a [playlistUrl]
    (missing, or the empty string) the answer is status 400 and no request
    is sent.  When Spotify fails on the playlist the answer is status 500
    with Spotify's message, after that one request.  Otherwise the answer is
    the result, whose seed artists are the playlist's artists, after the
    playlist was fetched and every seed artist looked up. *)
Theorem single_route_answers (body : SingleBody) (h : History) :
  (sbody_playlistUrl body = None \/ sbody_playlistUrl body = Some "" ->
   postRecommendations spotifyApi lastfmApi body h
   = (h, Returned (SingleStatus400 "playlistUrl is required")))
  /\ (forall playlistUrl,
         sbody_playlistUrl body = Some playlistUrl -> playlistUrl <> "" ->
         spotifyApi h playlistUrl = None ->
         postRecommendations spotifyApi lastfmApi body h
         = (h ++ [SpotifyPlaylistTracks playlistUrl],
            Returned (SingleStatus500 "Failed to fetch playlist from Spotify")))
  /\ (forall playlistUrl tracks,
         sbody_playlistUrl body = Some playlistUrl -> playlistUrl <> "" ->
         spotifyApi h playlistUrl = Some tracks ->
         exists r,
           seedArtists r = uniqueArtistsOf tracks
           /\ postRecommendations spotifyApi lastfmApi body h
              = ((h ++ [SpotifyPlaylistTracks playlistUrl])
                   ++ map LastfmGetSimilar (map artist_name (uniqueArtistsOf tracks)),
                 Returned (SingleJson r))).
Proof.
  unfold postRecommendations. split; [|split].
  - intros [E|E]; rewrite E; reflexivity.
  - intros url E N F. rewrite E. apply String.eqb_neq in N. rewrite N.
    pose proof (getRecommendations_run url
                  {| limit := sbody_limit body; minFrequency := sbody_minFrequency body |} h)
      as R.
    rewrite F in R. rewrite R. reflexivity.
  - intros url tracks E N F. rewrite E. apply String.eqb_neq in N. rewrite N.
    pose proof (getRecommendations_run url
                  {| limit := sbody_limit body; minFrequency := sbody_minFrequency body |} h)
      as R.
    rewrite F in R. destruct R as (r & Er & R). exists r. split; [exact Er|].
    rewrite R. reflexivity.
Qed.

(** X10.  [POST /recommendations/multiple] always answers, and never with
    an exception.  Status 400 is answered before any request; status 500
    carries Spotify's message and is answered before any similarity lookup;
    a result is answered after one lookup per seed artist.  The array
    [playlists], when it is usable, is the one that counts: [playlistUrls] is
    then not looked at. *)
Theorem multi_route_answers (body : @Body num) (h : History) :
  (exists h' response,
      postRecommendationsMultiple spotifyApi lastfmApi body h = (h', Returned response)
      /\ match response with
         | Status400 _ => h' = h
         | Status500 error =>
             error = "Failed to fetch playlist from Spotify"
             /\ lookupCount h' = lookupCount h
         | Json r => lookupCount h' = lookupCount h + List.length (m_seedArtists r)
         end)
  /\ (forall playlists other,
         usable (body_playlists body) = Some playlists ->
         postRecommendationsMultiple spotifyApi lastfmApi
           {| body_playlistUrls := other;
              body_playlists := body_playlists body;
              body_limit := body_limit body;
              body_minFrequency := body_minFrequency body |} h
         = postRecommendationsMultiple spotifyApi lastfmApi body h).
Proof.
  split.
  - assert (G : forall playlists,
               exists h' response,
                 match getRecommendationsFromMultiple spotifyApi lastfmApi playlists
                         {| limit := body_limit body;
                            minFrequency := body_minFrequency body |} h with
                 | (h', Returned result) => (h', Returned (Json result))
                 | (h', Thrown message) =>
                     (h', Returned
                            (Status500 (if String.eqb message ""
                                        then "Failed to generate recommendations"
                                        else message)))
                 end = (h', Returned response)
                 /\ match response with
                    | Status400 _ => h' = h
                    | Status500 error =>
                        error = "Failed to fetch playlist from Spotify"
                        /\ lookupCount h' = lookupCount h
                    | Json r => lookupCount h' = lookupCount h + List.length (m_seedArtists r)
                    end).
    { intros playlists.
      destruct (getRecommendationsFromMultiple_outcome spotifyApi lastfmApi playlists
                  {| limit := body_limit body; minFrequency := body_minFrequency body |} h)
        as [(n & _ & _ & R)|(r & R)]; rewrite R.
      - eexists. eexists. split; [reflexivity|]. split; [reflexivity|].
        unfold lookupCount. rewrite filter_app, filter_isLookup_spotify, app_nil_r.
        reflexivity.
      - eexists. eexists. split; [reflexivity|].
        unfold lookupCount.
        rewrite filter_isLookup_app, filter_app, filter_isLookup_spotify, app_nil_r.
        rewrite length_app, !length_map. reflexivity. }
    unfold postRecommendationsMultiple.
    destruct (usable (body_playlists body)) as [pls|]; [apply G|].
    destruct (usable (body_playlistUrls body)) as [pls|]; [apply G|].
    eexists. eexists. split; reflexivity.
  - intros playlists other U. unfold postRecommendationsMultiple.
    cbn [body_playlists body_playlistUrls body_limit body_minFrequency].
    rewrite U. reflexivity.
Qed.
End RouteFacts.

(** Witness of X9: a body without [playlistUrl]. *)
Lemma single_route_answers_witness :
  postRecommendations Examples.spotify Examples.lastfm
    {| sbody_playlistUrl := None; sbody_limit := None; sbody_minFrequency := None |} []
  = ([], Returned (SingleStatus400 "playlistUrl is required"))
  /\ postRecommendations Examples.spotify Examples.lastfm
       {| sbody_playlistUrl := Some "nowhere"; sbody_limit := None;
          sbody_minFrequency := None |} []
     = ([] ++ [SpotifyPlaylistTracks "nowhere"],
        Returned (SingleStatus500 "Failed to fetch playlist from Spotify")).
Proof.
  split.
  - apply (proj1 (single_route_answers Examples.spotify Examples.lastfm
                    {| sbody_playlistUrl := None; sbody_limit := None;
                       sbody_minFrequency := None |} [])).
    left. reflexivity.
  - apply (proj1 (proj2 (single_route_answers Examples.spotify Examples.lastfm
                           {| sbody_playlistUrl := Some "nowhere"; sbody_limit := None;
                              sbody_minFrequency := None |} [])) "nowhere").
    + reflexivity.
    + discriminate.
    + reflexivity.
Defined.

(* ================================================================== *)
(** ** Seed artists: first occurrences *)

Section FirstOccurrences.

Lemma has_upsert {V} (k k' : string) (f : V -> V) (init : V) (m : JsMap.t V) :
  JsMap.has k (JsMap.upsert k' f init m) = JsMap.has k m || String.eqb k' k.
Proof.
  rewrite !JsMapFacts.has_get. destruct (String.eqb k' k) eqn:E.
  - apply String.eqb_eq in E. subst k'. rewrite JsMapFacts.get_upsert_same.
    rewrite orb_true_r. reflexivity.
  - apply String.eqb_neq in E. rewrite (JsMapFacts.get_upsert_other k k' f init m E).
    rewrite orb_false_r. reflexivity.
Qed.

Lemma values_upsert_absent {V} (k : string) (f : V -> V) (init : V) (m : JsMap.t V) :
  JsMap.has k m = false ->
  JsMap.values (JsMap.upsert k f init m) = JsMap.values m ++ [init].
Proof.
  rewrite JsMapFacts.has_get.
  induction m as [|[k' v] r IH]; cbn [JsMap.get JsMap.upsert]; [reflexivity|].
  destruct (String.eqb k' k); [discriminate|]. intros E.
  unfold JsMap.values in *. cbn [map snd]. rewrite (IH E). reflexivity.
Qed.

Lemma values_upsert_present {V A} (proj : V -> A) (k : string) (f : V -> V) (init : V)
      (m : JsMap.t V) :
  (forall v, proj (f v) = proj v) ->
  JsMap.has k m = true ->
  map proj (JsMap.values (JsMap.upsert k f init m)) = map proj (JsMap.values m).
Proof.
  intros P. rewrite JsMapFacts.has_get.
  induction m as [|[k' v] r IH]; cbn [JsMap.get JsMap.upsert]; [discriminate|].
  unfold JsMap.values in *.
  destruct (String.eqb k' k); cbn [map snd]; intros E; [rewrite P; reflexivity|].
  rewrite (IH E). reflexivity.
Qed.

Lemma filter_swap {A} (f g : A -> bool) (l : list A) :
  filter f (filter g l) = filter g (filter f l).
Proof.
  induction l as [|x r IH]; simpl; [reflexivity|].
  destruct (f x) eqn:F; destruct (g x) eqn:G; simpl; rewrite ?F, ?G, IH; reflexivity.
Qed.

Lemma firstById_filter (q : string -> bool) (artists : list Artist) :
  filter (fun b => q (artist_id b)) (firstById artists)
  = firstById (filter (fun b => q (artist_id b)) artists).
Proof.
  induction artists as [|a r IH]; [reflexivity|].
  cbn [firstById filter]. destruct (q (artist_id a)) eqn:Q.
  - cbn [firstById]. f_equal. rewrite <- IH. apply filter_swap.
  - rewrite <- IH, filter_swap.
    apply forallb_filter_id, forallb_forall. intros b Ib.
    apply filter_In in Ib. destruct Ib as [_ Qb].
    destruct (String.eqb (artist_id a) (artist_id b)) eqn:E; [|reflexivity].
    apply String.eqb_eq in E. rewrite <- E, Q in Qb. discriminate Qb.
Qed.

Section Fold.
Context {V X : Type}.
Variable key : X -> string.
Variable upd : X -> V -> V.
Variable init : X -> V.
Variable item : X -> Artist.
Variable proj : V -> Artist.
Hypothesis key_item : forall x, key x = artist_id (item x).
Hypothesis proj_upd : forall x v, proj (upd x v) = proj v.
Hypothesis proj_init : forall x, proj (init x) = item x.

(** What a fold of [upsert] holds, read through [proj]: what it held, and
    then the new items, each id at its first occurrence. *)
Lemma values_fold_first (xs : list X) : forall m : JsMap.t V,
  map proj (JsMap.values (fold_left (JsMap.step key upd init) xs m))
  = map proj (JsMap.values m)
    ++ firstById (filter (fun a => negb (JsMap.has (artist_id a) m)) (map item xs)).
Proof.
  induction xs as [|x r IH]; intros m; simpl; [rewrite app_nil_r; reflexivity|].
  rewrite IH. unfold JsMap.step at 1 2. rewrite <- key_item.
  destruct (JsMap.has (key x) m) eqn:E; simpl.
  - rewrite (values_upsert_present proj _ _ _ _ (proj_upd x) E). f_equal. f_equal.
    apply filter_ext. intros a. rewrite has_upsert.
    destruct (String.eqb (key x) (artist_id a)) eqn:K; [|rewrite orb_false_r; reflexivity].
    apply String.eqb_eq in K. rewrite <- K, E. reflexivity.
  - rewrite (values_upsert_absent _ _ _ _ E), map_app, <- app_assoc. simpl.
    rewrite proj_init. f_equal. f_equal.
    rewrite (firstById_filter (fun i => negb (String.eqb (artist_id (item x)) i))).
    f_equal. generalize (map item r). intros l.
    induction l as [|a l IHl]; [reflexivity|]. cbn [filter].
    rewrite IHl, has_upsert, negb_orb, key_item.
    destruct (JsMap.has (artist_id a) m); cbn [negb andb filter]; [reflexivity|].
    destruct (String.eqb (artist_id (item x)) (artist_id a)); reflexivity.
Qed.
End Fold.
End FirstOccurrences.

Section SeedOrder.
Context {num : Type} `{JsNumber num}.
Context `{JsString}.
Variable spotifyApi : History -> string -> option (list Track).
Variable lastfmApi : History -> string -> option (list (@SimilarArtist num)).

Lemma upsert_unchanged {V} (k : string) (init : V) (m : JsMap.t V) :
  JsMap.upsert k (fun v => v) init m = m \/ JsMap.has k m = false.
Proof.
  rewrite JsMapFacts.has_get.
  induction m as [|[k' v] r IH]; cbn [JsMap.upsert JsMap.get]; [right; reflexivity|].
  destruct (String.eqb k' k); [left; reflexivity|].
  destruct IH as [-> | E]; [left; reflexivity|right; exact E].
Qed.

Lemma addArtist_step (m : JsMap.t Artist) (a : Artist) :
  addArtist m a = JsMap.step artist_id (fun _ v => v) (fun a => a) m a.
Proof.
  unfold addArtist, JsMap.step.
  destruct (JsMap.has (artist_id a) m) eqn:E; cbn [negb].
  - destruct (upsert_unchanged (artist_id a) a m) as [U|U]; [symmetry; exact U|congruence].
  - apply JsMapFacts.set_absent. rewrite JsMapFacts.has_get in E.
    destruct (JsMap.get (artist_id a) m); [discriminate E|reflexivity].
Qed.

Lemma fold_addArtist (artists : list Artist) : forall m,
  fold_left addArtist artists m
  = fold_left (JsMap.step artist_id (fun _ v => v) (fun a => a)) artists m.
Proof.
  induction artists as [|a r IH]; intros m; simpl; [reflexivity|].
  rewrite addArtist_step. apply IH.
Qed.

Lemma fold_tracks (tracks : list Track) : forall m,
  fold_left (fun artistMap track => fold_left addArtist (track_artists track) artistMap)
            tracks m
  = fold_left addArtist (flat_map track_artists tracks) m.
Proof.
  induction tracks as [|t r IH]; intros m; simpl; [reflexivity|].
  rewrite fold_left_app. apply IH.
Qed.

Lemma filter_all {A} (l : list A) : filter (fun _ => true) l = l.
Proof. induction l as [|x r IH]; simpl; [|rewrite IH]; reflexivity. Qed.

Lemma uniqueArtistsOf_first (tracks : list Track) :
  uniqueArtistsOf tracks = firstById (flat_map track_artists tracks).
Proof.
  unfold uniqueArtistsOf. rewrite fold_tracks, fold_addArtist.
  pose proof (values_fold_first artist_id (fun (_ : Artist) (v : Artist) => v)
                (fun a => a) (fun a => a) (fun a => a)
                (fun _ => eq_refl) (fun _ _ => eq_refl) (fun _ => eq_refl)
                (flat_map track_artists tracks) JsMap.empty) as E.
  rewrite !map_id in E. rewrite E. cbn [JsMap.values JsMap.empty map app].
  f_equal. apply filter_all.
Qed.

Lemma firstById_ids (artists : list Artist) (i : string) :
  In i (map artist_id (firstById artists)) <-> In i (map artist_id artists).
Proof.
  induction artists as [|a r IH]; [reflexivity|]. cbn [firstById map In].
  rewrite <- IH. split; intros [E|I]; auto.
  - right. apply in_map_iff in I. destruct I as (b & Eb & Ib).
    apply filter_In in Ib. apply in_map_iff. exists b. split; [exact Eb|apply Ib].
  - destruct (String.eqb (artist_id a) i) eqn:E; [left; apply String.eqb_eq, E|].
    right. apply in_map_iff in I. destruct I as (b & Eb & Ib).
    apply in_map_iff. exists b. split; [exact Eb|].
    apply filter_In. split; [exact Ib|]. rewrite Eb, E. reflexivity.
Qed.

(** X11.  [getPlaylistArtists] returns the artists of the playlist's tracks,
    in order of appearance, each id once and with the artist object of its
    first occurrence: no id is lost and none is repeated. *)
Theorem playlist_artists_are_first_occurrences (playlistUrl : string) (h : History) :
  match spotifyApi h playlistUrl with
  | Some tracks =>
      getPlaylistArtists spotifyApi playlistUrl h
      = (h ++ [SpotifyPlaylistTracks playlistUrl],
         Returned (firstById (flat_map track_artists tracks)))
      /\ NoDup (map artist_id (firstById (flat_map track_artists tracks)))
      /\ forall i, In i (map artist_id (firstById (flat_map track_artists tracks)))
                   <-> In i (map artist_id (flat_map track_artists tracks))
  | None =>
      getPlaylistArtists spotifyApi playlistUrl h
      = (h ++ [SpotifyPlaylistTracks playlistUrl],
         Thrown "Failed to fetch playlist from Spotify")
  end.
Proof.
  pose proof (getPlaylistArtists_run spotifyApi playlistUrl h) as R.
  destruct (spotifyApi h playlistUrl) as [tracks|]; [|exact R].
  rewrite uniqueArtistsOf_first in R. split; [exact R|]. split.
  - rewrite <- uniqueArtistsOf_first. apply uniqueArtistsOf_NoDup.
  - intros i. apply firstById_ids.
Qed.

Lemma memberships_artists (resolved : list (@Playlist num * list Artist)) :
  map snd (memberships resolved) = flat_map snd resolved.
Proof.
  unfold memberships. induction resolved as [|pa r IH]; simpl; [reflexivity|].
  rewrite map_app, map_map, IH. simpl. rewrite map_id. reflexivity.
Qed.

Lemma seeds_are_first_occurrences (resolved : list (@Playlist num * list Artist)) :
  map (fun a => {| artist_id := seed_id a; artist_name := seed_name a |})
      (JsMap.values
         (fold_left (JsMap.step (fun x : num * Artist => artist_id (snd x)) addWeight newSeed)
                    (memberships resolved) JsMap.empty))
  = firstById (flat_map snd resolved).
Proof.
  rewrite (values_fold_first (fun x : num * Artist => artist_id (snd x)) addWeight newSeed
             snd (fun a => {| artist_id := seed_id a; artist_name := seed_name a |})).
  - cbn [JsMap.values JsMap.empty map app]. rewrite memberships_artists. f_equal.
    apply filter_all.
  - reflexivity.
  - reflexivity.
  - intros [w [i nm]]. reflexivity.
Qed.

(** X12.  The seed artists of [getRecommendationsFromMultiple] are the
    artists of the request's playlists, taken in the order of the playlists
    and of their artists, each id once, with the id and the name of its first
    occurrence. *)
Theorem seed_artists_are_first_occurrences
        (playlists : list (@PlaylistArg num)) (options : Options) (h h' : History)
        (r : @MultiRecommendations num) :
  getRecommendationsFromMultiple spotifyApi lastfmApi playlists options h
  = (h', Returned r) ->
  exists h1 resolved,
    resolveAll spotifyApi (normalizeWeights (withWeights playlists)) h
    = (h1, Returned resolved)
    /\ map fst resolved = normalizeWeights (withWeights playlists)
    /\ m_seedArtists r = firstById (flat_map snd resolved).
Proof.
  intros E. apply getRecommendationsFromMultiple_Returned in E.
  destruct E as (h1 & seeds & similar & E1 & _ & Es & _).
  apply seedMapping_resolved in E1. destruct E1 as (resolved & R & Ef & _ & ->).
  exists h1, resolved. split; [exact R|]. split; [exact Ef|].
  rewrite Es. apply seeds_are_first_occurrences.
Qed.
End SeedOrder.

(** Witness of X12: the request over two playlists; "a2" is in both and is
    listed once, where it first appears. *)
Lemma seed_artists_are_first_occurrences_witness :
  exists h' r,
    getRecommendationsFromMultiple Examples.spotify Examples.lastfm
      Examples.twoPlaylists Examples.noOptions [] = (h', Returned r)
    /\ map artist_id (m_seedArtists r) = ["a1"; "a2"; "a3"]
    /\ exists h1 resolved,
         resolveAll Examples.spotify
           (normalizeWeights (withWeights Examples.twoPlaylists)) []
         = (h1, Returned resolved)
         /\ map fst resolved = normalizeWeights (withWeights Examples.twoPlaylists)
         /\ m_seedArtists r = firstById (flat_map snd resolved).
Proof.
  eexists. eexists. split; [vm_compute; reflexivity|]. split; [reflexivity|].
  eapply (seed_artists_are_first_occurrences Examples.spotify Examples.lastfm
            Examples.twoPlaylists Examples.noOptions []).
  vm_compute. reflexivity.
Defined.

(* ================================================================== *)
(** ** The older engine and the current one *)

Section EngineVersions.
Context {num : Type} `{JsNumber num}.
Context `{JsString}.
Variable spotifyApi : History -> string -> option (list Track).
Variable lastfmApi : History -> string -> option (list (@SimilarArtist num)).

Local Abbreviation setArtist := (fun (m : JsMap.t Artist) a => JsMap.set (artist_id a) a m).

Lemma keys_fold_set (artists : list Artist) : forall m : JsMap.t Artist,
  JsMap.keys (fold_left setArtist artists m)
  = fold_left JsMap.addKey (map artist_id artists) (JsMap.keys m).
Proof.
  induction artists as [|a r IH]; intros m; simpl; [reflexivity|].
  rewrite IH, keys_set. reflexivity.
Qed.

Lemma keys_fold_addSeed (w : num) (artists : list Artist) :
  forall m : JsMap.t (@SeedArtist num),
    JsMap.keys (fold_left (addSeed w) artists m)
    = fold_left JsMap.addKey (map artist_id artists) (JsMap.keys m).
Proof.
  intros m. rewrite addSeed_inner, JsMapFacts.keys_fold, map_map. reflexivity.
Qed.

Lemma keyed_fold_addSeed (w : num) (artists : list Artist) :
  forall m : JsMap.t (@SeedArtist num),
    Forall (fun kv => seed_id (snd kv) = fst kv) m ->
    Forall (fun kv => seed_id (snd kv) = fst kv) (fold_left (addSeed w) artists m).
Proof.
  induction artists as [|a r IH]; intros m F; simpl; [exact F|].
  apply IH. rewrite addSeed_step. unfold JsMap.step.
  apply (upsert_Forall (fun k v => seed_id v = k)); [exact F|reflexivity|].
  intros v E. exact E.
Qed.

Lemma keyed_fold_set (artists : list Artist) : forall m : JsMap.t Artist,
  Forall (fun kv => artist_id (snd kv) = fst kv) m ->
  Forall (fun kv => artist_id (snd kv) = fst kv) (fold_left setArtist artists m).
Proof.
  induction artists as [|a r IH]; intros m F; simpl; [exact F|].
  apply IH. apply (set_Forall (fun k v => artist_id v = k)); [exact F|reflexivity].
Qed.

Lemma keyed_ids {V} (idOf : V -> string) (m : JsMap.t V) :
  Forall (fun kv => idOf (snd kv) = fst kv) m ->
  map idOf (JsMap.values m) = JsMap.keys m.
Proof.
  intros F. unfold JsMap.keys, JsMap.values. rewrite map_map.
  apply map_ext_in. intros kv I. rewrite Forall_forall in F. apply F, I.
Qed.

(** The two loops over the same urls, run from the same history: they stop
    at the same playlist, or they both finish, and then they have met the
    same ids in the same order. *)
Lemma loops_in_step (pls : list (@Playlist num)) :
  forall (all : list Artist) (m : JsMap.t (@SeedArtist num)) h,
    JsMap.keys (fold_left setArtist all JsMap.empty) = JsMap.keys m ->
    Forall (fun kv => seed_id (snd kv) = fst kv) m ->
    (exists h',
        forOf (fun allSeedArtists url =>
                 await artists <- getPlaylistArtists spotifyApi url ;;
                 ret (allSeedArtists ++ artists))
              (map playlist_url pls) all h
        = (h', Thrown "Failed to fetch playlist from Spotify")
        /\ forOf (fun artistWeightMap playlist =>
                    await artists <- getPlaylistArtists spotifyApi (playlist_url playlist) ;;
                    ret (fold_left (addSeed (playlist_weight playlist)) artists
                                   artistWeightMap))
                 pls m h
           = (h', Thrown "Failed to fetch playlist from Spotify")
        /\ lookupCount h' = lookupCount h)
    \/ (exists h' all' m',
           forOf (fun allSeedArtists url =>
                    await artists <- getPlaylistArtists spotifyApi url ;;
                    ret (allSeedArtists ++ artists))
                 (map playlist_url pls) all h
           = (h', Returned all')
           /\ forOf (fun artistWeightMap playlist =>
                       await artists <- getPlaylistArtists spotifyApi (playlist_url playlist) ;;
                       ret (fold_left (addSeed (playlist_weight playlist)) artists
                                      artistWeightMap))
                    pls m h
              = (h', Returned m')
           /\ JsMap.keys (fold_left setArtist all' JsMap.empty) = JsMap.keys m'
           /\ Forall (fun kv => seed_id (snd kv) = fst kv) m').
Proof.
  induction pls as [|p r IH]; intros all m h K F.
  - right. exists h, all, m. repeat split; assumption.
  - cbn [map]. rewrite !forOf_cons, !(fetch_round spotifyApi).
    destruct (spotifyApi h (playlist_url p)) as [tracks|] eqn:E.
    + destruct (IH (all ++ uniqueArtistsOf tracks)
                   (fold_left (addSeed (playlist_weight p)) (uniqueArtistsOf tracks) m)
                   (h ++ [SpotifyPlaylistTracks (playlist_url p)]))
        as [(h' & R1 & R2 & L)|(h' & all' & m' & R1 & R2 & K' & F')].
      * rewrite fold_left_app, keys_fold_set, keys_fold_addSeed, K. reflexivity.
      * apply keyed_fold_addSeed, F.
      * left. exists h'. split; [exact R1|]. split; [exact R2|].
        rewrite L. unfold lookupCount. rewrite filter_app. simpl. rewrite app_nil_r.
        reflexivity.
      * right. exists h', all', m'. repeat split; assumption.
    + left. exists (h ++ [SpotifyPlaylistTracks (playlist_url p)]).
      split; [reflexivity|]. split; [reflexivity|].
      unfold lookupCount. rewrite filter_app. simpl. rewrite app_nil_r. reflexivity.
Qed.

(** X13.  The older engine and the current one, given the same playlist
    urls at the same point, do the same to Spotify: either both fail, after
    the same requests and with the same error, or both return, and then their
    seed artists have the same ids in the same order and they have sent the
    same number of lookups. *)
Theorem older_and_current_engine_have_the_same_seeds
        (playlistUrls : list string) (options options' : Options) (h : History) :
  (exists h',
      LegacyEngine.getRecommendationsFromMultiple spotifyApi lastfmApi playlistUrls options h
      = (h', Thrown "Failed to fetch playlist from Spotify")
      /\ getRecommendationsFromMultiple spotifyApi lastfmApi
           (map PlaylistUrl playlistUrls) options' h
         = (h', Thrown "Failed to fetch playlist from Spotify")
      /\ lookupCount h' = lookupCount h)
  \/ (exists hl rl hc rc,
         LegacyEngine.getRecommendationsFromMultiple spotifyApi lastfmApi playlistUrls
           options h = (hl, Returned rl)
         /\ getRecommendationsFromMultiple spotifyApi lastfmApi
              (map PlaylistUrl playlistUrls) options' h = (hc, Returned rc)
         /\ map artist_id (seedArtists rl) = map artist_id (m_seedArtists rc)
         /\ lookupCount hl = lookupCount hc).
Proof.
  assert (U : map playlist_url (normalizeWeights (withWeights (map (@PlaylistUrl num) playlistUrls)))
              = playlistUrls).
  { rewrite urls_normalized, map_map. apply map_id. }
  destruct (loops_in_step (normalizeWeights (withWeights (map PlaylistUrl playlistUrls)))
              [] JsMap.empty h eq_refl (Forall_nil _))
    as [(h' & R1 & R2 & L)|(h' & all' & m' & R1 & R2 & K & F)]; rewrite U in R1.
  - left. exists h'. split; [|split; [|exact L]].
    + unfold LegacyEngine.getRecommendationsFromMultiple, LegacyEngine.collectArtists.
      unfold bind at 1. rewrite R1. reflexivity.
    + unfold getRecommendationsFromMultiple, collectSeeds.
      unfold bind at 1. rewrite R2. reflexivity.
  - right.
    unfold LegacyEngine.getRecommendationsFromMultiple, LegacyEngine.collectArtists.
    unfold getRecommendationsFromMultiple, collectSeeds.
    unfold bind at 1. rewrite R1. unfold bind at 1.
    rewrite getSimilarArtistsForMultiple_answers.
    unfold bind at 1. rewrite R2. unfold bind at 1.
    rewrite getSimilarArtistsForMultiple_answers.
    eexists. eexists. eexists. eexists.
    split; [reflexivity|]. split; [reflexivity|]. cbn [seedArtists m_seedArtists]. split.
    + rewrite map_map. cbn [artist_id].
      change (fun x : SeedArtist => seed_id x) with (@seed_id num).
      rewrite (keyed_ids (@seed_id num) m' F), <- K.
      unfold LegacyEngine.uniqueById. apply keyed_ids.
      apply keyed_fold_set. constructor.
    + unfold lookupCount. rewrite !filter_isLookup_app, !length_app, !length_map.
      f_equal. unfold weightedArtistsOf. rewrite !length_map.
      rewrite <- (length_map (@seed_id num) (JsMap.values m')),
        (keyed_ids (@seed_id num) m' F), <- K.
      unfold LegacyEngine.uniqueById.
      rewrite <- (length_map artist_id), keyed_ids; [reflexivity|].
      apply keyed_fold_set. constructor.
Qed.
End EngineVersions.

(* ================================================================== *)
(** ** Ranking *)

Section Ranking.
Context {num : Type} `{JsNumber num}.
Context `{JsString}.
Variable spotifyApi : History -> string -> option (list Track).
Variable lastfmApi : History -> string -> option (list (@SimilarArtist num)).

Local Abbreviation precedes := (fun a b : @AggregatedArtist num => mayPrecede a b = true).

Lemma orderedComparisons_spec (l : list (@AggregatedArtist num)) :
  orderedComparisons l = true ->
  (forall a b, In a l -> In b l -> mayPrecede a b = true \/ mayPrecede b a = true)
  /\ (forall a b c, In a l -> In b l -> In c l ->
                    mayPrecede a b = true -> mayPrecede b c = true ->
                    mayPrecede a c = true).
Proof.
  unfold orderedComparisons. intros O. rewrite forallb_forall in O. split.
  - intros a b Ia Ib. specialize (O a Ia). rewrite forallb_forall in O.
    specialize (O b Ib). apply andb_prop in O. apply orb_prop, O.
  - intros a b c Ia Ib Ic Pab Pbc. specialize (O a Ia). rewrite forallb_forall in O.
    specialize (O b Ib). apply andb_prop in O. destruct O as [_ O].
    rewrite forallb_forall in O. specialize (O c Ic).
    rewrite Pab, Pbc in O. exact O.
Qed.

Section Ordered.
Variable l0 : list (@AggregatedArtist num).
Hypothesis total :
  forall a b, In a l0 -> In b l0 -> mayPrecede a b = true \/ mayPrecede b a = true.
Hypothesis transitive :
  forall a b c, In a l0 -> In b l0 -> In c l0 ->
                mayPrecede a b = true -> mayPrecede b c = true -> mayPrecede a c = true.

Lemma sortInsert_sorted (x : @AggregatedArtist num) (l : list (@AggregatedArtist num)) :
  In x l0 -> incl l l0 ->
  StronglySorted precedes l ->
  StronglySorted precedes (sortInsert byCombinedScore x l).
Proof.
  intros Ix Il S. induction S as [|y r Sr IH Fy]; cbn [sortInsert].
  - constructor; constructor.
  - assert (Iy : In y l0) by (apply Il; left; reflexivity).
    assert (Ir : incl r l0) by (intros z Z; apply Il; right; exact Z).
    destruct (num_gt0 (byCombinedScore x y)) eqn:G.
    + constructor; [exact (IH Ir)|].
      apply (Permutation_Forall (Permutation_sym (sortInsert_perm byCombinedScore x r))).
      constructor; [|exact Fy].
      destruct (total x y Ix Iy) as [P|P]; [|exact P].
      unfold mayPrecede in P. rewrite G in P. discriminate P.
    + assert (P : mayPrecede x y = true) by (unfold mayPrecede; rewrite G; reflexivity).
      constructor; [constructor; assumption|].
      constructor; [exact P|].
      apply Forall_forall. intros z Z. rewrite Forall_forall in Fy.
      exact (transitive x y z Ix Iy (Ir z Z) P (Fy z Z)).
Qed.

Lemma sort_sorted (l : list (@AggregatedArtist num)) :
  incl l l0 -> StronglySorted precedes (sort byCombinedScore l).
Proof.
  induction l as [|x r IH]; intros I; simpl; [constructor|].
  apply sortInsert_sorted.
  - apply I. left. reflexivity.
  - intros z Z. apply I. right. apply (sort_In byCombinedScore r z), Z.
  - apply IH. intros z Z. apply I. right. exact Z.
Qed.
End Ordered.

Lemma StronglySorted_filter {A} (R : A -> A -> Prop) (f : A -> bool) (l : list A) :
  StronglySorted R l -> StronglySorted R (filter f l).
Proof.
  induction 1 as [|x r Sr IH Fx]; simpl; [constructor|].
  destruct (f x); [|exact IH]. constructor; [exact IH|].
  apply Forall_forall. intros y I. apply filter_In in I.
  rewrite Forall_forall in Fx. apply Fx, I.
Qed.

Lemma StronglySorted_firstn {A} (R : A -> A -> Prop) (n : nat) (l : list A) :
  StronglySorted R l -> StronglySorted R (firstn n l).
Proof.
  intros S. revert n. induction S as [|x r Sr IH Fx]; intros [|n]; simpl; try constructor.
  - apply IH.
  - apply Forall_forall. intros y I. rewrite Forall_forall in Fx. apply Fx.
    rewrite <- (firstn_skipn n r). apply in_or_app. left. exact I.
Qed.

Lemma aggregate_sorted (results : list (@WeightedArtist num * list (@SimilarArtist num))) :
  orderedComparisons (aggregate results) = true ->
  StronglySorted precedes (aggregate results).
Proof.
  intros O. apply orderedComparisons_spec in O. destruct O as [T R].
  unfold aggregate in *. cbv zeta in *.
  set (l := map (toAggregated (accumulateAll results)) (JsMap.keys (accumulateAll results)))
    in *.
  apply (sort_sorted l).
  - intros a b Ia Ib. apply T; apply (sort_In byCombinedScore l); assumption.
  - intros a b c Ia Ib Ic. apply R; apply (sort_In byCombinedScore l); assumption.
  - apply incl_refl.
Qed.

(** X14.  The ranking is in descending order of [combinedScore] whenever the
    comparisons among the returned scores are those of an order (which a
    score that is NaN breaks): then no candidate of what the Last.fm service
    returns has a score above that of a candidate before it, and the same
    holds of the recommendations of [getRecommendationsFromMultiple],
    whatever the options. *)
Theorem results_are_in_descending_order :
  (forall args h,
      exists h' similar,
        getSimilarArtistsForMultiple lastfmApi args h = (h', Returned similar)
        /\ (orderedComparisons similar = true ->
            StronglySorted (fun a b => mayPrecede a b = true) similar))
  /\ (forall playlists options h h' r,
         getRecommendationsFromMultiple spotifyApi lastfmApi playlists options h
         = (h', Returned r) ->
         exists h1 seeds similar,
           seedMapping spotifyApi playlists h = (h1, Returned seeds)
           /\ getSimilarArtistsForMultiple lastfmApi
                (map SeedWeighted (weightedArtistsOf (JsMap.values seeds))) h1
              = (h', Returned similar)
           /\ (orderedComparisons similar = true ->
               StronglySorted (fun a b => mayPrecede a b = true) (m_recommendations r))).
Proof.
  assert (G : forall args h,
             exists h' similar,
               getSimilarArtistsForMultiple lastfmApi args h = (h', Returned similar)
               /\ (orderedComparisons similar = true ->
                   StronglySorted (fun a b => mayPrecede a b = true) similar)).
  { intros args h. rewrite getSimilarArtistsForMultiple_answers.
    eexists. eexists. split; [reflexivity|]. apply aggregate_sorted. }
  split; [exact G|].
  intros playlists options h h' r E.
  apply getRecommendationsFromMultiple_Returned in E.
  destruct E as (h1 & seeds & similar & E1 & E2 & _ & Er & _).
  exists h1, seeds, similar. split; [exact E1|]. split; [exact E2|]. intros O.
  destruct (G (map SeedWeighted (weightedArtistsOf (JsMap.values seeds))) h1)
    as (h2 & similar' & E2' & S).
  rewrite E2 in E2'. inversion E2'; subst similar'.
  rewrite Er. unfold slice0. apply StronglySorted_firstn, StronglySorted_filter, S, O.
Qed.
End Ranking.






Section FrequencyFacts.
Context {num : Type} `{JsNumber num}.
Variable lastfmApi : History -> string -> option (list (@SimilarArtist num)).

Lemma length_answers (names : list string) : forall h,
  List.length (answers lastfmApi names h) = List.length names.
Proof.
  induction names as [|nm r IH]; intros h; simpl; [reflexivity|].
  rewrite IH. reflexivity.
Qed.

(** X18.  What [frequency] and [averageMatch] of a returned candidate are:
    the frequency is the number of entries, over the answers of all seeds,
    that carry exactly the candidate's name; it is at least 1 and at most the
    number of entries Last.fm returned in all; the average match is the
    plain mean of the [match] values of those entries, whatever the weights
    of the seeds. *)
Theorem frequency_counts_entries_by_name (args : list (@SeedArg num)) (h : History) :
  exists h' similar,
    getSimilarArtistsForMultiple lastfmApi args h = (h', Returned similar)
    /\ let artists := map (toWeighted (List.length args)) args in
       let results := answers lastfmApi (map wa_name artists) h in
       Forall (fun a =>
                 let entries :=
                   filter (fun s => String.eqb (similar_name s) (name a)) (concat results) in
                 frequency a = List.length entries
                 /\ 1 <= frequency a <= List.length (concat results)
                 /\ averageMatch a = average (map similar_match entries))
              similar.
Proof.
  rewrite getSimilarArtistsForMultiple_answers. do 2 eexists. split; [reflexivity|].
  cbn zeta.
  set (artists := map (toWeighted (List.length args)) args).
  set (results := answers lastfmApi (map wa_name artists) h).
  assert (L : List.length results = List.length artists).
  { unfold results. rewrite length_answers, length_map. reflexivity. }
  pose proof (observations_combine artists results L) as Os.
  eapply Forall_impl; [|apply aggregate_entries].
  intros a (N & F & A & _).
  assert (M : map snd (observationsOf (name a) (combine artists results))
              = filter (fun s => String.eqb (similar_name s) (name a)) (concat results)).
  { unfold observationsOf. rewrite <- Os.
    apply (filter_map_snd (fun s => String.eqb (similar_name s) (name a))). }
  rewrite <- M, length_map, map_map. repeat split.
  - exact F.
  - rewrite F. destruct (observationsOf (name a) (combine artists results));
      [congruence|simpl; lia].
  - rewrite F, <- Os, length_map. unfold observationsOf. apply filter_length_le.
  - exact A.
Qed.
End FrequencyFacts.

(** Witness of X10: a body with a usable [playlists] and something else in
    [playlistUrls]. *)
Lemma multi_route_answers_witness :
  usable (body_playlists MoreExamples.bothFields) = Some Examples.twoPlaylists
  /\ postRecommendationsMultiple Examples.spotify Examples.lastfm
       {| body_playlistUrls := ArrayOf [];
          body_playlists := body_playlists MoreExamples.bothFields;
          body_limit := body_limit MoreExamples.bothFields;
          body_minFrequency := body_minFrequency MoreExamples.bothFields |} []
     = postRecommendationsMultiple Examples.spotify Examples.lastfm MoreExamples.bothFields [].
Proof.
  split; [reflexivity|].
  apply (proj2 (multi_route_answers Examples.spotify Examples.lastfm
                  MoreExamples.bothFields [])
               Examples.twoPlaylists (ArrayOf [])).
  reflexivity.
Defined.

(** Witness of X14: the request over two playlists, on doubles. *)
Lemma results_are_in_descending_order_witness :
  exists h' r,
    getRecommendationsFromMultiple Examples.spotify Examples.lastfm
      Examples.twoPlaylists Examples.noOptions [] = (h', Returned r)
    /\ map (fun a => (name a, combinedScore a)) (m_recommendations r)
       = [("X", 1%float); ("Y", 0.1%float)]
    /\ exists h1 seeds similar,
         seedMapping Examples.spotify Examples.twoPlaylists [] = (h1, Returned seeds)
         /\ getSimilarArtistsForMultiple Examples.lastfm
              (map SeedWeighted (weightedArtistsOf (JsMap.values seeds))) h1
            = (h', Returned similar)
         /\ orderedComparisons similar = true
         /\ StronglySorted (fun a b => mayPrecede a b = true) (m_recommendations r).
Proof.
  do 2 eexists. split; [vm_compute; reflexivity|]. split; [vm_compute; reflexivity|].
  destruct (proj2 (results_are_in_descending_order Examples.spotify Examples.lastfm)
                  Examples.twoPlaylists Examples.noOptions [] _ _ eq_refl)
    as (h1 & seeds & similar & E1 & E2 & S).
  exists h1, seeds, similar. split; [exact E1|]. split; [exact E2|].
  assert (O : orderedComparisons similar = true).
  { vm_compute in E1. inversion E1; subst h1 seeds. clear E1.
    vm_compute in E2. inversion E2; subst similar. vm_compute. reflexivity. }
  split; [exact O|exact (S O)].
Defined.



Section EchoedWeights.
Local Open Scope Qc_scope.
Context `{JsString}.
Variable spotifyApi : History -> string -> option (list Track).
Variable lastfmApi : History -> string -> option (list (@SimilarArtist Qc)).

Lemma withWeights_weighted (pls : list (@Playlist Qc)) :
  withWeights (map PlaylistWeighted pls) = pls.
Proof. unfold withWeights. rewrite map_map. apply map_id. Qed.

Lemma playlistWeights_Returned (playlists : list (@PlaylistArg Qc)) options h h' r :
  getRecommendationsFromMultiple spotifyApi lastfmApi playlists options h = (h', Returned r) ->
  m_playlistWeights r
  = map (fun p => {| playlist_url := playlist_url p;
                     playlist_weight :=
                       num_round (num_mul (playlist_weight p) (num_of_nat 100)) |})
        (normalizeWeights (withWeights playlists)).
Proof.
  unfold getRecommendationsFromMultiple. intros E.
  apply bind_Returned in E. destruct E as (h1 & seeds & _ & E).
  apply bind_Returned in E. destruct E as (h2 & similar & _ & E).
  apply ret_Returned in E. destruct E as [_ ->]. reflexivity.
Qed.

Lemma round_integer (z : Z) : Exact.round (Q2Qc (inject_Z z)) = Q2Qc (inject_Z z).
Proof.
  unfold Exact.round. f_equal. f_equal.
  cbn [this Q2Qc]. rewrite Qred_correct.
  unfold Qfloor, Qplus, inject_Z. cbn [Qnum Qden].
  change (Z.pos (1 * 2)) with 2%Z. rewrite Z.mul_1_l.
  rewrite Z.div_add_l by discriminate. apply Z.add_0_r.
Qed.

Lemma hundred : num_of_nat (num:=Qc) 100 = Q2Qc 100.
Proof. apply Qc_is_canon. vm_compute. reflexivity. Qed.

(** X20.  The weights of the request come back in the answer: in exact
    arithmetic, when the weights of a weighted request are integers that sum
    to 100, [playlistWeights] of the result holds every playlist with the
    weight it was given. *)
Theorem percent_weights_are_echoed (ws : list (string * Z)) (options : Options)
        (h h' : History) (r : @MultiRecommendations Qc) :
  totalWeightOf (integerPlaylists ws) = Q2Qc 100 ->
  getRecommendationsFromMultiple spotifyApi lastfmApi
    (map PlaylistWeighted (integerPlaylists ws)) options h = (h', Returned r) ->
  m_playlistWeights r = integerPlaylists ws.
Proof.
  intros T E. rewrite (playlistWeights_Returned _ _ _ _ _ E), withWeights_weighted.
  unfold normalizeWeights. rewrite T, map_map. unfold integerPlaylists. rewrite !map_map.
  apply map_ext. intros [url z]. cbn [playlist_url playlist_weight fst snd]. f_equal.
  rewrite hundred. cbn [num_round num_mul num_div Exact.number].
  replace (Q2Qc (inject_Z z) / Q2Qc 100 * Q2Qc 100) with (Q2Qc (inject_Z z)).
  - apply round_integer.
  - field. intros Z. discriminate Z.
Qed.
End EchoedWeights.

(** Witness of X20: weights 60 and 40. *)
Lemma percent_weights_are_echoed_witness :
  exists h' r,
    getRecommendationsFromMultiple Examples.spotify MoreExamples.lastfmExact
      (map PlaylistWeighted (integerPlaylists [("mellow", 60%Z); ("upbeat", 40%Z)]))
      Examples.noOptions [] = (h', Returned r)
    /\ m_playlistWeights r = integerPlaylists [("mellow", 60%Z); ("upbeat", 40%Z)].
Proof.
  do 2 eexists. split; [vm_compute; reflexivity|].
  eapply (percent_weights_are_echoed Examples.spotify MoreExamples.lastfmExact
            [("mellow", 60%Z); ("upbeat", 40%Z)] Examples.noOptions []).
  - apply Qc_is_canon. vm_compute. reflexivity.
  - vm_compute. reflexivity.
Defined.

(* ================================================================== *)
(** ** What the weights change, and what they leave *)

Section EqualShares.
Context {num : Type} `{JsNumber num}.

Lemma normalized_shares (pls : list (@Playlist num)) :
  map playlist_weight (normalizeWeights pls)
  = map (fun w => num_div w (num_sum (map playlist_weight pls))) (map playlist_weight pls).
Proof.
  unfold normalizeWeights. rewrite totalWeightOf_num_sum, !map_map. reflexivity.
Qed.

Lemma equal_shares (urls : list string) :
  map playlist_weight (normalizeWeights (withWeights (map (@PlaylistUrl num) urls)))
  = repeat (equalShare (List.length urls)) (List.length urls).
Proof.
  rewrite normalized_shares, weights_unweighted, map_repeat. reflexivity.
Qed.
End EqualShares.

(** X15.  Playlists given as strings share the weight equally: whatever the
    urls and the arithmetic, each of N playlists gets the same normalized
    weight, 100 / N divided by the sum of N times 100 / N.  On doubles this
    is 1, 0.5, 0.33333333333333337 and 0.25 for one to four playlists. *)
Theorem unweighted_playlists_get_equal_weights :
  (forall (num : Type) (number : JsNumber num) (urls : list string),
      map playlist_weight (normalizeWeights (withWeights (map (@PlaylistUrl num) urls)))
      = repeat (equalShare (List.length urls)) (List.length urls))
  /\ map (equalShare (num:=float)) [1; 2; 3; 4]
     = [1%float; 0.5%float; 0.33333333333333337%float; 0.25%float].
Proof.
  split; [intros num number urls; apply equal_shares|vm_compute; reflexivity].
Qed.

Section WeightsAndCandidates.
Context {num : Type} `{JsNumber num}.
Context `{JsString}.
Variable spotifyApi : History -> string -> option (list Track).
Variable lastfmApi : History -> string -> option (list (@SimilarArtist num)).

Lemma toWeighted_weighted (n : nat) (artists : list (@WeightedArtist num)) :
  map (toWeighted n) (map SeedWeighted artists) = artists.
Proof. rewrite map_map. apply map_id. Qed.

(** Two weightings of the same seeds, over the same answers: the same
    candidates, with the same frequencies and averages. *)
Lemma candidates_whatever_weights (artists1 artists2 : list (@WeightedArtist num))
      (results : list (list (@SimilarArtist num))) :
  List.length results = List.length artists1 ->
  List.length results = List.length artists2 ->
  Permutation (map candidateInfo (aggregate (combine artists1 results)))
              (map candidateInfo (aggregate (combine artists2 results))).
Proof.
  intros L1 L2. eapply Permutation_trans.
  - apply Permutation_sym, (same_candidates artists1 results L1).
  - apply (same_candidates artists2 results L2).
Qed.

(** X17.  The weights of the seeds change the scores and the order, and
    nothing else: for two weightings of the same seed names, the service
    sends the same lookups and returns the same candidates, each with the
    same frequency and the same average match. *)
Theorem seed_weights_change_scores_and_order_only
        (artists1 artists2 : list (@WeightedArtist num)) (h : History) :
  map wa_name artists1 = map wa_name artists2 ->
  exists h' similar1 similar2,
    getSimilarArtistsForMultiple lastfmApi (map SeedWeighted artists1) h
    = (h', Returned similar1)
    /\ getSimilarArtistsForMultiple lastfmApi (map SeedWeighted artists2) h
       = (h', Returned similar2)
    /\ Permutation (map candidateInfo similar1) (map candidateInfo similar2).
Proof.
  intros E. rewrite !getSimilarArtistsForMultiple_answers, !toWeighted_weighted, <- E.
  do 3 eexists. split; [reflexivity|]. split; [reflexivity|].
  apply candidates_whatever_weights; rewrite length_answers, length_map; [reflexivity|].
  apply (f_equal (@List.length string)) in E. rewrite !length_map in E. exact E.
Qed.

Lemma filter_perm {A} (f : A -> bool) (l l' : list A) :
  Permutation l l' -> Permutation (filter f l) (filter f l').
Proof.
  induction 1 as [|x l l' P IH|x y l|l l' l'' P1 IH1 P2 IH2]; simpl.
  - constructor.
  - destruct (f x); [constructor|]; exact IH.
  - destruct (f x); destruct (f y); try apply Permutation_refl. constructor.
  - eapply Permutation_trans; eassumption.
Qed.

(** The engine's filter reads the name and the frequency of a candidate. *)
Lemma filter_keeps_perm (names : list string) (k : Z) (l1 l2 : list (@AggregatedArtist num)) :
  Permutation (map candidateInfo l1) (map candidateInfo l2) ->
  Permutation (map candidateInfo (filter (keeps names k) l1))
              (map candidateInfo (filter (keeps names k) l2)).
Proof.
  intros P.
  set (g := fun i : string * nat * num =>
              negb (includes names (toLowerCase (fst (fst i))))
              && (k <=? Z.of_nat (snd (fst i)))%Z).
  assert (F : forall l, map candidateInfo (filter (keeps names k) l)
                        = filter g (map candidateInfo l)).
  { induction l as [|c r IH]; [reflexivity|]. cbn [filter map].
    change (g (candidateInfo c)) with (keeps names k c).
    destruct (keeps names k c); cbn [map]; rewrite IH; reflexivity. }
  rewrite !F. apply filter_perm, P.
Qed.

Lemma slice0_all {A} (l : list A) (e : Z) :
  (Z.of_nat (List.length l) <= e)%Z -> slice0 l e = l.
Proof.
  intros L. unfold slice0.
  assert (N : (e <? 0)%Z = false) by (apply Z.ltb_ge; lia). rewrite N.
  rewrite Z.min_r by exact L. rewrite Nat2Z.id. apply firstn_all.
Qed.

Lemma values_fold_fresh (w : num) (artists : list Artist) :
  forall m : JsMap.t (@SeedArtist num),
    NoDup (map artist_id artists) ->
    (forall a, In a artists -> JsMap.has (artist_id a) m = false) ->
    JsMap.values (fold_left (addSeed w) artists m)
    = JsMap.values m ++ map (fun a => newSeed (w, a)) artists.
Proof.
  induction artists as [|a r IH]; intros m N F; simpl; [rewrite app_nil_r; reflexivity|].
  inversion N as [|? ? Na Nr]; subst.
  rewrite addSeed_step. unfold JsMap.step. cbn [snd].
  rewrite IH.
  - rewrite values_upsert_absent by (apply F; left; reflexivity).
    rewrite <- app_assoc. reflexivity.
  - exact Nr.
  - intros b Ib. rewrite has_upsert, (F b (or_intror Ib)). simpl.
    apply String.eqb_neq. intros E. apply Na. rewrite E. apply in_map, Ib.
Qed.

Lemma one_playlist_weight (url : string) :
  exists w, normalizeWeights (withWeights [@PlaylistUrl num url])
            = [{| playlist_url := url; playlist_weight := w |}].
Proof. eexists. reflexivity. Qed.

Lemma orElse_orDefault (d : Z) (x : option Z) :
  x <> Some 0%Z -> orElse d x = orDefault d x.
Proof.
  destruct x as [v|]; [|reflexivity]. intros N. simpl.
  destruct (Z.eqb_spec v 0); [subst; congruence|reflexivity].
Qed.

Lemma bind_value {A B} (c : Async A) (k : A -> Async B) h h1 a :
  c h = (h1, Returned a) -> (await x <- c ;; k x) h = k a h1.
Proof. intros E. unfold bind. rewrite E. reflexivity. Qed.

Lemma collectSeeds_one (url : string) (w : num) (tracks : list Track) (h : History) :
  spotifyApi h url = Some tracks ->
  collectSeeds spotifyApi [{| playlist_url := url; playlist_weight := w |}] h
  = (h ++ [SpotifyPlaylistTracks url],
     Returned (fold_left (addSeed w) (uniqueArtistsOf tracks) JsMap.empty)).
Proof.
  intros E. unfold collectSeeds. rewrite forOf_cons. cbv beta.
  cbn [playlist_url playlist_weight]. rewrite (fetch_round spotifyApi url), E. reflexivity.
Qed.

(** X19.  A request of [getRecommendationsFromMultiple] for one playlist
    given as a string is a request of [getRecommendations] for it, up to the
    scores and the order: when [minFrequency] is not 0 the two send the same
    requests and return the same seed artists and the same [totalFound]; and
    when the limit is not 0 and does not cut the list, their recommendations
    are the same candidates, each with the same frequency and the same
    average match. *)
Theorem one_playlist_agrees_with_single_engine
        (url : string) (tracks : list Track) (options : Options) (h : History) :
  spotifyApi h url = Some tracks ->
  minFrequency options <> Some 0%Z ->
  exists h' r m,
    getRecommendations spotifyApi lastfmApi url options h = (h', Returned r)
    /\ getRecommendationsFromMultiple spotifyApi lastfmApi [PlaylistUrl url] options h
       = (h', Returned m)
    /\ m_seedArtists m = seedArtists r
    /\ m_totalFound m = totalFound r
    /\ (limit options <> Some 0%Z ->
        (Z.of_nat (totalFound r) <= orDefault 20 (limit options))%Z ->
        Permutation (map candidateInfo (m_recommendations m))
                    (map candidateInfo (recommendations r))).
Proof.
  intros E K.
  unfold getRecommendations, getRecommendationsFromMultiple.
  destruct (one_playlist_weight url) as [w1 Ew]. rewrite Ew.
  rewrite (orElse_orDefault _ _ K).
  rewrite (bind_value _ _ _ _ _ (eq_trans (getPlaylistArtists_run spotifyApi url h)
                                          (f_equal (fun o => (_, match o with
                                                                 | Some tracks => _
                                                                 | None => _
                                                                 end)) E))).
  rewrite (bind_value _ _ _ _ _ (collectSeeds_one url w1 tracks h E)).
  rewrite !(bind_value _ _ _ _ _ (getSimilarArtistsForMultiple_answers lastfmApi _ _)).
  set (arts := uniqueArtistsOf tracks).
  rewrite (values_fold_fresh w1 arts JsMap.empty (uniqueArtistsOf_NoDup tracks)
             (fun _ _ => eq_refl)).
  cbn [JsMap.values JsMap.empty map app].
  rewrite toWeighted_weighted. unfold weightedArtistsOf. rewrite !map_map.
  cbn [newSeed seed_id seed_name seed_weight fst snd wa_name toWeighted].
  set (names := map (fun x : Artist => toLowerCase (artist_name x)) arts).
  set (k := orDefault 1 (minFrequency options)).
  set (results := answers lastfmApi (map (fun x : Artist => artist_name x) arts)
                          (h ++ [SpotifyPlaylistTracks url])).
  set (single := map (fun x : Artist =>
                        {| wa_name := artist_name x;
                           wa_weight :=
                             num_div num_one
                               (num_of_nat
                                  (List.length
                                     (map (fun x0 : Artist => @SeedName num (artist_name x0))
                                          arts))) |})
                     arts).
  set (multi := map (fun x : Artist => {| wa_name := artist_name x; wa_weight := w1 |}) arts).
  assert (P : Permutation
                (map candidateInfo (filter (keeps names k) (aggregate (combine multi results))))
                (map candidateInfo (filter (keeps names k) (aggregate (combine single results))))).
  { apply filter_keeps_perm, candidates_whatever_weights;
      unfold results, multi, single; rewrite length_answers, !length_map; reflexivity. }
  assert (L : List.length (filter (keeps names k) (aggregate (combine multi results)))
              = List.length (filter (keeps names k) (aggregate (combine single results)))).
  { apply Permutation_length in P. rewrite !length_map in P. exact P. }
  unfold ret. do 3 eexists. split; [reflexivity|]. split; [reflexivity|].
  cbn [m_seedArtists m_totalFound m_recommendations seedArtists totalFound recommendations].
  split; [|split; [exact L|]].
  - etransitivity; [|apply map_id]. apply map_ext. intros [i nm]. reflexivity.
  - intros Lim T. rewrite (orElse_orDefault _ _ Lim).
    rewrite !slice0_all; [exact P|exact T|rewrite L; exact T].
Qed.
End WeightsAndCandidates.

(** Witness of X17: the seeds A and B, weighted 0.5 and 0.5, and 0.9 and
    0.1, on doubles. *)
Lemma seed_weights_change_scores_and_order_only_witness :
  exists h' similar1 similar2,
    getSimilarArtistsForMultiple Examples.lastfm
      (map SeedWeighted [Examples.seed "A" 0.5; Examples.seed "B" 0.5]) []
    = (h', Returned similar1)
    /\ getSimilarArtistsForMultiple Examples.lastfm
         (map SeedWeighted [Examples.seed "A" 0.9; Examples.seed "B" 0.1]) []
       = (h', Returned similar2)
    /\ Permutation (map candidateInfo similar1) (map candidateInfo similar2).
Proof.
  apply (seed_weights_change_scores_and_order_only Examples.lastfm
           [Examples.seed "A" 0.5; Examples.seed "B" 0.5]
           [Examples.seed "A" 0.9; Examples.seed "B" 0.1] []).
  reflexivity.
Defined.

(** Witness of X19: the playlist "mellow", without options, on doubles. *)
Lemma one_playlist_agrees_with_single_engine_witness :
  minFrequency Examples.noOptions = None
  /\ exists h' r m,
      getRecommendations Examples.spotify Examples.lastfm "mellow"
        Examples.noOptions [] = (h', Returned r)
      /\ getRecommendationsFromMultiple Examples.spotify Examples.lastfm
           [PlaylistUrl "mellow"] Examples.noOptions [] = (h', Returned m)
      /\ m_seedArtists m = seedArtists r
      /\ m_totalFound m = totalFound r
      /\ (limit Examples.noOptions <> Some 0%Z ->
          (Z.of_nat (totalFound r) <= orDefault 20 (limit Examples.noOptions))%Z ->
          Permutation (map candidateInfo (m_recommendations m))
                      (map candidateInfo (recommendations r))).
Proof.
  split; [reflexivity|].
  apply (one_playlist_agrees_with_single_engine Examples.spotify Examples.lastfm
           "mellow" _ Examples.noOptions [] eq_refl); discriminate.
Defined.
